(** * The "Predefined Sequences" example notebook of zhinst-toolkit

    A model of [docs/source/examples/notebooks/example3-3_PredefinedSequences.ipynb]:
    the code cells of the notebook, transcribed statement by statement, and
    the way a Python kernel runs them against the instrument library.

    The notebook drives two instruments (an HDAWG and a UHFQA) through the
    toolkit's objects.  Those objects are opaque to the notebook: it only
    reads attributes of them, subscripts them and calls them.  The model
    therefore keeps, for every such object, the way it was obtained (a
    [handle]), logs every call made on one (the [trace]), and lets the
    instruments answer through a [library] record that is a parameter of the
    whole development. *)

From Stdlib Require Import ZArith List Bool Lia.
From Stdlib Require Import Strings.String Strings.Ascii.
From Stdlib Require Import Floats.PrimFloat Floats.SpecFloat Floats.FloatOps.
From Stdlib Require Import DecimalString DecimalNat.
From stdpp Require Import base option list strings gmap.

Set Warnings "-inexact-float,-register-all,-abstract-large-number".
#[local] Open Scope Z_scope.
#[local] Open Scope string_scope.
#[local] Open Scope list_scope.

(** ** Binary64 numbers, as Python's [float] *)

Module Py64.

(** Python's conversion of an integer to a float: the nearest binary64
    number, ties to even. *)
Definition of_Z (z : Z) : float :=
  SF2Prim (binary_normalize prec emax z 0 false).

(** [int(x)] on a float truncates towards zero; it has no value on an
    infinity or a nan. *)
Definition trunc (x : float) : option Z :=
  match Prim2SF x with
  | S754_zero _ => Some 0
  | S754_finite s m e =>
      let magnitude :=
        match e with
        | Zneg k => Z.shiftr (Zpos m) (Zpos k)
        | _ => Z.shiftl (Zpos m) e
        end in
      Some (if s then - magnitude else magnitude)
  | S754_infinity _ | S754_nan => None
  end.

Definition is_zero (x : float) : bool := PrimFloat.eqb x 0%float.

End Py64.

(** ** Values of the kernel *)

(** A subscript applied to a library object. *)
Inductive key :=
| KInt (i : Z)
| KStr (s : string).

(** How an object of the instrument library was obtained. *)
Inductive handle :=
| HGlobal (module attr : string)   (* [tk.HDAWG]: a name of an imported module *)
| HResult (n : nat)                (* what the call logged at position [n] returned *)
| HAttr (h : handle) (attr : string)   (* [h.attr] *)
| HItem (h : handle) (k : key).        (* [h[k]] *)

Inductive value :=
| VNone
| VInt (z : Z)
| VFloat (x : float)
| VStr (s : string)
| VList (vs : list value)
| VArray (xs : list float)         (* a one-dimensional numpy array of float64 *)
| VModule (name : string)
| VNumpy (fn : string)             (* a function of the numpy module *)
| VBuiltin (fn : string)           (* [int], [len] *)
| VObj (h : handle).               (* an object of the instrument library *)

Definition key_eqb (a b : key) : bool :=
  match a, b with
  | KInt i, KInt j => Z.eqb i j
  | KStr s, KStr t => String.eqb s t
  | _, _ => false
  end.

Fixpoint handle_eqb (a b : handle) : bool :=
  match a, b with
  | HGlobal m x, HGlobal m' x' => String.eqb m m' && String.eqb x x'
  | HResult n, HResult n' => Nat.eqb n n'
  | HAttr h x, HAttr h' x' => handle_eqb h h' && String.eqb x x'
  | HItem h k, HItem h' k' => handle_eqb h h' && key_eqb k k'
  | _, _ => false
  end.

(** ** Calls into the instrument library *)

(** One call made on a library object: the callee (for a method call
    [obj.m(...)], the handle [HAttr obj "m"]), the positional arguments and
    the keyword arguments in the order they were written. *)
Record call := Call {
  callee : handle;
  args : list value;
  kwargs : list (string * value)
}.

(** The method a call invokes and the object it invokes it on. *)
Definition method (c : call) : string :=
  match callee c with
  | HAttr _ m => m
  | _ => ""
  end.

Definition receiver (c : call) : handle :=
  match callee c with
  | HAttr h _ => h
  | h => h
  end.

Definition kwarg (name : string) (c : call) : option value :=
  snd <$> List.find (fun kv => String.eqb (fst kv) name) (kwargs c).

Definition kwarg_names (c : call) : list string := map fst (kwargs c).

(** What the library prints when it has compiled a sequence program. *)
Inductive status := Success | Failure.

(** The instruments' side of a run: whether the compilation requested by
    the call logged at position [n] succeeds, and which result vector the
    [result()] call logged at position [n] reads back. *)
Record library := Library {
  compiles : nat -> bool;
  acquired : nat -> list float
}.

(** ** State of the kernel *)

Record state := State {
  ns : gmap string value;     (* the global namespace *)
  trace : list call;          (* the calls made on library objects, oldest first *)
  printed : list status       (* the compilation reports printed so far *)
}.

Definition fresh : state := State ∅ [] [].

Inductive error :=
| NameError (name : string)
| TypeError (what : string)
| AttributeError (attr : string)
| IndexError
| ValueError (what : string)
| OverflowError
| Unsupported (what : string).

Inductive outcome (A : Type) :=
| Ok (a : A) (s : state)
| Raise (e : error) (s : state).
Arguments Ok {A} a s.
Arguments Raise {A} e s.

Definition M (A : Type) : Type := state -> outcome A.

Definition ret {A} (a : A) : M A := fun s => Ok a s.
Definition raise {A} (e : error) : M A := fun s => Raise e s.
Definition bind {A B} (m : M A) (k : A -> M B) : M B :=
  fun s => match m s with
           | Ok a s' => k a s'
           | Raise e s' => Raise e s'
           end.

Declare Scope py_scope.
Delimit Scope py_scope with py.
Notation "x <- m ;; k" := (bind m (fun x => k))
  (at level 100, m at next level, right associativity) : py_scope.
Notation "m ;;; k" := (bind m (fun _ => k))
  (at level 100, right associativity) : py_scope.
#[local] Open Scope py_scope.

Definition final_state {A} (o : outcome A) : state :=
  match o with Ok _ s | Raise _ s => s end.

Definition raised {A} (o : outcome A) : option error :=
  match o with Ok _ _ => None | Raise e _ => Some e end.

Definition bind_name (x : string) (v : value) : M unit :=
  fun s => Ok tt (State (<[x := v]> (ns s)) (trace s) (printed s)).

(** The builtins the notebook calls.  A name is looked up in the global
    namespace first, then among the builtins. *)
Definition builtins : list string := ["int"; "len"].

Definition lookup_name (x : string) : M value :=
  fun s => match ns s !! x with
           | Some v => Ok v s
           | None =>
               if existsb (String.eqb x) builtins then Ok (VBuiltin x) s
               else Raise (NameError x) s
           end.

(** ** The numpy functions the notebook uses *)

Module Numpy.

Definition functions : list string :=
  ["linspace"; "ones"; "array"; "mean"; "append"].

Definition arange (n : nat) : list float :=
  map (fun i => Py64.of_Z (Z.of_nat i)) (seq 0 n).

Definition set_last (y : list float) (x : float) : list float :=
  match y with
  | [] => []
  | _ => removelast y ++ [x]
  end.

(** Modelled from the spec: [numpy.linspace] is not part of the sources.
    [linspace start stop num] is numpy's array of [num] evenly spaced
    samples over the closed interval from [start] to [stop]: the sample
    of index [i] is [i * step + start], and the last one is [stop]
    itself.  A negative [num] is refused. *)
Definition linspace (start stop : float) (num : Z) : option (list float) :=
  if (num <? 0)%Z then None
  else
    let div := num - 1 in
    let delta := (stop - start)%float in
    let y := arange (Z.to_nat num) in
    let y :=
      if (0 <? div)%Z then
        let step := (delta / Py64.of_Z div)%float in
        if Py64.is_zero step
        then map (fun v => (v / Py64.of_Z div * delta)%float) y
        else map (fun v => (v * step)%float) y
      else map (fun v => (v * delta)%float) y in
    let y := map (fun v => (v + start)%float) y in
    Some (if (1 <? num)%Z then set_last y stop else y).

(** Modelled from the spec: [numpy.ones] is not part of the sources.
    [ones n] is an array of [n] samples, each equal to [1.0]; a negative
    [n] is refused. *)
Definition ones (n : Z) : option (list float) :=
  if (n <? 0)%Z then None else Some (repeat 1%float (Z.to_nat n)).

(** Modelled from the spec: [numpy.mean] is not part of the sources.  The
    average of a result vector is one number: the sum of the samples
    over their count (the order in which numpy adds them up is not
    modelled). *)
Definition mean (xs : list float) : float :=
  (fold_left PrimFloat.add xs 0 / Py64.of_Z (Z.of_nat (length xs)))%float.

(** Modelled from the spec: [numpy.append] is not part of the sources.
    [append xs ys] is a new array, [xs] followed by [ys]. *)
Definition append (xs ys : list float) : list float := xs ++ ys.

End Numpy.

(** A number, as numpy coerces it into a float64 array. *)
Definition as_float (v : value) : option float :=
  match v with
  | VFloat x => Some x
  | VInt z => Some (Py64.of_Z z)
  | _ => None
  end.

Definition as_floats (v : value) : option (list float) :=
  match v with
  | VArray xs => Some xs
  | VList vs => mapM as_float vs
  | _ => (fun x => [x]) <$> as_float v
  end.

(** ** Syntax of the code cells *)

Inductive binop := Mult | Pow.

Inductive expr :=
| EName (x : string)
| EInt (z : Z)
| EFloat (x : float)
| EStr (s : string)
| EList (es : list expr)
| EAttr (e : expr) (attr : string)
| ESubscript (e k : expr)
| ECall (f : expr) (args : list expr) (kwargs : list (string * expr))
| EBinOp (op : binop) (l r : expr).

Inductive stmt :=
| SImport (module alias : string)            (* import module as alias *)
| SAssign (x : string) (e : expr)            (* x = e *)
| SExpr (e : expr)                           (* e *)
| SFor (x : string) (iter : expr) (body : list stmt)
| SIf (test : expr) (body orelse : list stmt)
| STry (body handler : list stmt)            (* try: body  except: handler *)
| SFunctionDef (name : string) (params : list string) (body : list stmt)
| SClassDef (name : string) (body : list stmt).

Definition cell := list stmt.

Arguments EFloat x%_float.

(** [obj.m(args, kwargs)] *)
Definition method_call (obj : expr) (m : string) (args : list expr)
  (kwargs : list (string * expr)) : expr :=
  ECall (EAttr obj m) args kwargs.

(** ** Running a cell *)

Definition get_attr (v : value) (attr : string) : M value :=
  match v with
  | VModule m =>
      if String.eqb m "numpy" then
        if existsb (String.eqb attr) Numpy.functions then ret (VNumpy attr)
        else raise (AttributeError attr)
      else ret (VObj (HGlobal m attr))
  | VObj h => ret (VObj (HAttr h attr))
  | _ => raise (AttributeError attr)
  end.

(** [l[i]] on a sequence, a negative [i] counting from the end. *)
Definition index {A} (l : list A) (i : Z) : option A :=
  let n := Z.of_nat (length l) in
  let j := if (i <? 0)%Z then i + n else i in
  if (j <? 0)%Z then None else l !! Z.to_nat j.

Definition get_item (v k : value) : M value :=
  match v, k with
  | VObj h, VInt i => ret (VObj (HItem h (KInt i)))
  | VObj h, VStr s => ret (VObj (HItem h (KStr s)))
  | VList vs, VInt i =>
      match index vs i with Some x => ret x | None => raise IndexError end
  | VArray xs, VInt i =>
      match index xs i with Some x => ret (VFloat x) | None => raise IndexError end
  | _, _ => raise (TypeError "subscript")
  end.

Definition eval_binop (op : binop) (a b : value) : M value :=
  match op, a, b with
  | Mult, VInt x, VInt y => ret (VInt (x * y))
  | Mult, _, _ =>
      match as_float a, as_float b with
      | Some x, Some y => ret (VFloat (x * y))
      | _, _ => raise (Unsupported "operands of *")
      end
  | Pow, VInt x, VInt y =>
      if (0 <=? y)%Z then ret (VInt (x ^ y)) else raise (Unsupported "negative power")
  | Pow, _, _ => raise (Unsupported "operands of **")
  end.

Definition call_builtin (fn : string) (vs : list value) : M value :=
  if String.eqb fn "int" then
    match vs with
    | [VInt z] => ret (VInt z)
    | [VFloat x] =>
        match Py64.trunc x with
        | Some z => ret (VInt z)
        | None => raise OverflowError
        end
    | _ => raise (TypeError "int")
    end
  else if String.eqb fn "len" then
    match vs with
    | [VList l] => ret (VInt (Z.of_nat (length l)))
    | [VArray xs] => ret (VInt (Z.of_nat (length xs)))
    | [VStr s] => ret (VInt (Z.of_nat (String.length s)))
    | _ => raise (TypeError "len")
    end
  else raise (NameError fn).

Definition call_numpy (fn : string) (vs : list value) : M value :=
  if String.eqb fn "linspace" then
    match vs with
    | [a; b; VInt num] =>
        match as_float a, as_float b with
        | Some start, Some stop =>
            match Numpy.linspace start stop num with
            | Some xs => ret (VArray xs)
            | None => raise (ValueError "linspace")
            end
        | _, _ => raise (TypeError "linspace")
        end
    | _ => raise (TypeError "linspace")
    end
  else if String.eqb fn "ones" then
    match vs with
    | [VInt n] =>
        match Numpy.ones n with
        | Some xs => ret (VArray xs)
        | None => raise (ValueError "ones")
        end
    | _ => raise (TypeError "ones")
    end
  else if String.eqb fn "array" then
    match vs with
    | [VList l] =>
        match mapM as_float l with
        | Some xs => ret (VArray xs)
        | None => raise (Unsupported "array")
        end
    | _ => raise (Unsupported "array")
    end
  else if String.eqb fn "mean" then
    match vs with
    | [VArray xs] => ret (VFloat (Numpy.mean xs))
    | _ => raise (Unsupported "mean")
    end
  else if String.eqb fn "append" then
    match vs with
    | [VArray xs; v] =>
        match as_floats v with
        | Some ys => ret (VArray (Numpy.append xs ys))
        | None => raise (Unsupported "append")
        end
    | _ => raise (Unsupported "append")
    end
  else raise (AttributeError fn).

Definition compile_methods : list string :=
  ["compile"; "compile_and_upload_waveforms"].

Definition is_compile (c : call) : bool :=
  existsb (String.eqb (method c)) compile_methods.

(** The values a [for] loop binds its variable to. *)
Definition iterate (v : value) : M (list value) :=
  match v with
  | VArray xs => ret (map VFloat xs)
  | VList vs => ret vs
  | _ => raise (TypeError "not iterable")
  end.

Definition truth (v : value) : M bool :=
  match v with
  | VNone => ret false
  | VInt z => ret (negb (z =? 0)%Z)
  | VFloat x => ret (negb (Py64.is_zero x))
  | VStr s => ret (negb (String.eqb s ""))
  | VList l => ret (match l with [] => false | _ => true end)
  | VArray [] => ret false
  | VArray [x] => ret (negb (Py64.is_zero x))
  | VArray _ => raise (ValueError "truth value of an array")
  | _ => ret true
  end.

Section Kernel.

Variable lib : library.

(** Modelled from the spec: the toolkit's own code is not part of the
    sources.  A call on a library object is logged.  A call of a name of
    the toolkit module ([tk.HDAWG(..)]) returns a new object; [result()]
    returns the result vector the instruments acquired; [compile()] and
    [compile_and_upload_waveforms()] print whether the compilation
    succeeded and return nothing; every other call returns nothing. *)
Definition library_call (c : call) : M value := fun s =>
  let n := length (trace s) in
  let logged := trace s ++ [c] in
  match callee c with
  | HGlobal _ _ => Ok (VObj (HResult n)) (State (ns s) logged (printed s))
  | _ =>
      if String.eqb (method c) "result" then
        Ok (VArray (acquired lib n)) (State (ns s) logged (printed s))
      else if is_compile c then
        let report := if compiles lib n then Success else Failure in
        Ok VNone (State (ns s) logged (printed s ++ [report]))
      else Ok VNone (State (ns s) logged (printed s))
  end.

Definition apply (f : value) (vs : list value) (kvs : list (string * value))
  : M value :=
  match f with
  | VObj h => library_call (Call h vs kvs)
  | VBuiltin fn =>
      match kvs with
      | [] => call_builtin fn vs
      | _ => raise (TypeError "keyword argument")
      end
  | VNumpy fn =>
      match kvs with
      | [] => call_numpy fn vs
      | _ => raise (Unsupported "keyword argument")
      end
  | _ => raise (TypeError "not callable")
  end.

(** Python evaluates the callee, then the positional arguments from left
    to right, then the keyword arguments from left to right. *)
Fixpoint eval (e : expr) : M value :=
  match e with
  | EName x => lookup_name x
  | EInt z => ret (VInt z)
  | EFloat x => ret (VFloat x)
  | EStr s => ret (VStr s)
  | EList es =>
      vs <- (fix go (es : list expr) : M (list value) :=
               match es with
               | [] => ret []
               | e :: es => v <- eval e;; vs <- go es;; ret (v :: vs)
               end) es;;
      ret (VList vs)
  | EAttr e attr => v <- eval e;; get_attr v attr
  | ESubscript e k => v <- eval e;; i <- eval k;; get_item v i
  | ECall f args kwargs =>
      fv <- eval f;;
      vs <- (fix go (es : list expr) : M (list value) :=
               match es with
               | [] => ret []
               | e :: es => v <- eval e;; vs <- go es;; ret (v :: vs)
               end) args;;
      kvs <- (fix go (kes : list (string * expr)) : M (list (string * value)) :=
                match kes with
                | [] => ret []
                | (k, e) :: kes => v <- eval e;; kvs <- go kes;; ret ((k, v) :: kvs)
                end) kwargs;;
      apply fv vs kvs
  | EBinOp op l r => a <- eval l;; b <- eval r;; eval_binop op a b
  end.

(** A statement; an exception leaves the state as it was when it was
    raised.  [def] and [class] statements are outside the fragment the
    kernel runs. *)
Fixpoint exec (st : stmt) : M unit :=
  let block :=
    fix block (b : list stmt) : M unit :=
      match b with
      | [] => ret tt
      | st' :: b' => exec st';;; block b'
      end in
  match st with
  | SImport module alias => bind_name alias (VModule module)
  | SAssign x e => v <- eval e;; bind_name x v
  | SExpr e => eval e;;; ret tt
  | SFor x iter body =>
      v <- eval iter;;
      items <- iterate v;;
      (fix loop (items : list value) : M unit :=
         match items with
         | [] => ret tt
         | item :: rest => bind_name x item;;; block body;;; loop rest
         end) items
  | SIf test body orelse =>
      v <- eval test;;
      b <- truth v;;
      if b then block body else block orelse
  | STry body handler =>
      fun s => match block body s with
               | Ok _ s' => Ok tt s'
               | Raise _ s' => block handler s'
               end
  | SFunctionDef _ _ _ => raise (Unsupported "def")
  | SClassDef _ _ => raise (Unsupported "class")
  end.

Fixpoint exec_block (b : list stmt) : M unit :=
  match b with
  | [] => ret tt
  | st :: b' => exec st;;; exec_block b'
  end.

(** The iterations of a [for] loop over the values still to come. *)
Fixpoint exec_loop (x : string) (body : list stmt) (items : list value) : M unit :=
  match items with
  | [] => ret tt
  | item :: rest => bind_name x item;;; exec_block body;;; exec_loop x body rest
  end.

(** Running a cell runs its statements in order and stops at the first
    exception; what the cell did before stays done. *)
Definition run_cell (c : cell) (s : state) : outcome unit := exec_block c s.

(** Running cells one after the other, as a reader of the notebook does:
    a cell that raised does not keep the next one from being run. *)
Definition run_cells (cs : list cell) (s : state) : state :=
  fold_left (fun s c => final_state (run_cell c s)) cs s.

End Kernel.

(** ** The code cells of the notebook, in the order they appear *)

Module Notebook.

(** The sweep points and the drive waveform, as the cells below define
    them. *)

(** np.linspace(50e6, 100e6, 101) *)
Definition resonator_frequencies : expr :=
  method_call (EName "np") "linspace" [EFloat 50e6; EFloat 100e6; EInt 101] [].

(** np.linspace(20e6, 50e6, 101) *)
Definition qubit_frequencies : expr :=
  method_call (EName "np") "linspace" [EFloat 20e6; EFloat 50e6; EInt 101] [].

(** np.linspace(0, 1.0, 101) *)
Definition rabi_amplitudes : expr :=
  method_call (EName "np") "linspace" [EInt 0; EFloat 1.0; EInt 101] [].

(** np.linspace(0.5e-6, 20e-6, 40) *)
Definition delay_times : expr :=
  method_call (EName "np") "linspace" [EFloat 0.5e-6; EFloat 20e-6; EInt 40] [].

(** int(2.4e9 * 5e-6) *)
Definition wave_length : expr :=
  ECall (EName "int") [EBinOp Mult (EFloat 2.4e9) (EFloat 5e-6)] [].

(** np.ones(int(2.4e9 * 5e-6)) *)
Definition wave : expr := method_call (EName "np") "ones" [wave_length] [].

(** Data server and devices. *)
Definition connect : cell :=
  [ SImport "zhinst.toolkit" "tk";
    SImport "numpy" "np";
    SAssign "mdc"
      (method_call (EName "tk") "MultiDeviceConnection" []
         [("host", EStr "10.42.0.226")]);
    SExpr (method_call (EName "mdc") "setup" [] []);
    SExpr (method_call (EName "mdc") "connect_device"
             [method_call (EName "tk") "HDAWG" [EStr "hdawg 1"; EStr "dev8030"] []] []);
    SExpr (method_call (EName "mdc") "connect_device"
             [method_call (EName "tk") "UHFQA" [EStr "uhfqa 1"; EStr "dev2266"] []] []);
    SAssign "hdawg" (ESubscript (EAttr (EName "mdc") "hdawgs") (EStr "hdawg 1"));
    SAssign "uhfqa" (ESubscript (EAttr (EName "mdc") "uhfqas") (EStr "uhfqa 1")) ].

(** Resonator spectroscopy: trigger and readout sequences. *)
Definition resonator_setup : cell :=
  [ SAssign "trigger" (ESubscript (EAttr (EName "hdawg") "awgs") (EInt 0));
    SAssign "readout" (EAttr (EName "uhfqa") "awg");
    SAssign "period" (EFloat 10e-6);
    SAssign "repetitions" (EFloat 1e3);
    SExpr (method_call (EName "trigger") "set_sequence_params" []
             [ ("sequence_type", EStr "Trigger");
               ("period", EName "period");
               ("repetitions", EName "repetitions") ]);
    SExpr (method_call (EName "trigger") "compile" [] []);
    SExpr (method_call (EName "readout") "set_sequence_params" []
             [ ("sequence_type", EStr "Pulsed Spectroscopy");
               ("period", EName "period");
               ("repetitions", EName "repetitions");
               ("trigger_mode", EStr "External Trigger") ]);
    SExpr (method_call (EName "readout") "compile" [] []) ].

(** Resonator spectroscopy: the sweep of the modulation frequency. *)
Definition resonator_loop : stmt :=
  SFor "f" (EName "frequencies")
    [ SExpr (ECall (EName "modulation_freq") [EName "f"] []);
      SExpr (method_call (EName "uhfqa") "arm" [] []);
      SExpr (method_call (EName "readout") "run" [] []);
      SExpr (method_call (EName "trigger") "run" [] []);
      SExpr (method_call (EName "trigger") "wait_done" [] []);
      SAssign "avg_result"
        (method_call (EName "np") "mean"
           [method_call (ESubscript (EAttr (EName "uhfqa") "channels") (EInt 0))
              "result" [] []] []);
      SAssign "results"
        (method_call (EName "np") "append" [EName "results"; EName "avg_result"] []) ].

Definition resonator_sweep : cell :=
  [ SExpr (method_call (EName "uhfqa") "result_source" [EStr "Integration"] []);
    SExpr (method_call (EName "ufhqa") "arm" []
             [("length", EName "repetitions"); ("averages", EInt 1)]);
    SAssign "modulation_freq"
      (EAttr (EAttr (EAttr (EName "uhfqa") "nodetree") "osc") "freq");
    SAssign "frequencies" resonator_frequencies;
    SAssign "results" (method_call (EName "np") "array" [EList []] []);
    resonator_loop ].

(** Qubit spectroscopy: drive waveform and readout sequence. *)
Definition qubit_setup : cell :=
  [ SAssign "drive" (ESubscript (EAttr (EName "hdawg") "awgs") (EInt 0));
    SAssign "readout" (EAttr (EName "uhfqa") "awg");
    SAssign "channel" (ESubscript (EAttr (EName "uhfqa") "channels") (EInt 0));
    SAssign "period" (EFloat 10e-6);
    SAssign "repetitions" (EInt 100);
    SExpr (method_call (EName "drive") "set_sequence_params" []
             [ ("sequence_type", EStr "Simple");
               ("period", EName "period");
               ("repetitions", EName "repetitions");
               ("trigger_mode", EStr "Send Trigger") ]);
    SExpr (method_call (EName "drive") "reset_queue" [] []);
    SAssign "wave" wave;
    SExpr (method_call (EName "drive") "queue_waveform" [EName "wave"; EName "wave"] []);
    SExpr (method_call (EName "drive") "compile_and_upload_waveforms" [] []);
    SExpr (method_call (EName "channel") "enable" [] []);
    SExpr (method_call (EName "channel") "readout_frequency" [EFloat 123e6] []);
    SExpr (method_call (EName "readout") "set_sequence_params" []
             [ ("sequence_type", EStr "Readout");
               ("period", EName "period");
               ("repetitions", EName "repetitions");
               ("pulse_lenth", EFloat 2e-6);
               ("trigger_mode", EStr "External Trigger") ]);
    SExpr (method_call (EName "readout") "compile" [] []) ].

(** Qubit spectroscopy: the sweep of the drive frequency. *)
Definition qubit_loop : stmt :=
  SFor "f" (EName "frequencies")
    [ SExpr (method_call (EName "drive") "modulation_freq" [EName "f"] []);
      SExpr (method_call (EName "uhfqa") "arm" [] []);
      SExpr (method_call (EName "readout") "run" [] []);
      SExpr (method_call (EName "drive") "run" [] []);
      SExpr (method_call (EName "drive") "wait_done" [] []);
      SAssign "avg_result"
        (method_call (EName "np") "mean"
           [method_call (EName "channel") "result" [] []] []);
      SAssign "results"
        (method_call (EName "np") "append" [EName "results"; EName "avg_result"] []) ].

Definition qubit_sweep : cell :=
  [ SExpr (ECall (EAttr (EAttr (EAttr (EAttr (EName "uhfqa") "nodetree") "qa") "result")
                    "source") [EInt 7] []);
    SExpr (method_call (EName "uhfqa") "arm" []
             [("length", EName "repetitions"); ("averages", EInt 1)]);
    SAssign "frequencies" qubit_frequencies;
    SAssign "results" (method_call (EName "np") "array" [EList []] []);
    SExpr (method_call (EName "drive") "enable_iq_modulation" [] []);
    qubit_loop ].

(** Rabi sequence: amplitude sweep and readout sequence. *)
Definition rabi_setup : cell :=
  [ SAssign "drive" (ESubscript (EAttr (EName "hdawg") "awgs") (EInt 0));
    SAssign "readout" (EAttr (EName "uhfqa") "awg");
    SAssign "channel" (ESubscript (EAttr (EName "uhfqa") "channels") (EInt 0));
    SAssign "averages" (EBinOp Pow (EInt 2) (EInt 8));
    SAssign "period" (EFloat 10e-6);
    SAssign "rabi_amplitudes" rabi_amplitudes;
    SExpr (method_call (ESubscript (EAttr (EName "hdawg") "awgs") (EInt 0))
             "enable_iq_modulation" [] []);
    SExpr (method_call (ESubscript (EAttr (EName "hdawg") "awgs") (EInt 0))
             "modulation_freq" [EFloat 100e6] []);
    SExpr (method_call (ESubscript (EAttr (EName "hdawg") "awgs") (EInt 0))
             "set_sequence_params" []
             [ ("sequence_type", EStr "Rabi");
               ("pulse_width", EFloat 50e-9);
               ("pulse_amplitudes", EName "rabi_amplitudes");
               ("period", EName "period");
               ("repetitions", EName "averages");
               ("trigger_mode", EStr "Send Trigger") ]);
    SExpr (method_call (ESubscript (EAttr (EName "hdawg") "awgs") (EInt 0))
             "compile" [] []);
    SExpr (method_call (EName "channel") "enable" [] []);
    SExpr (method_call (EName "channel") "readout_frequency" [EFloat 123e6] []);
    SExpr (method_call (EName "readout") "set_sequence_params" []
             [ ("sequence_type", EStr "Readout");
               ("period", EName "period");
               ("repetitions",
                 EBinOp Mult (EName "averages")
                   (ECall (EName "len") [EName "rabi_amplitudes"] []));
               ("trigger_mode", EStr "External Trigger");
               ("pulse_lenth", EFloat 2e-6) ]);
    SExpr (method_call (EName "readout") "compile" [] []) ].

(** Rabi sequence: one acquisition. *)
Definition rabi_measure : cell :=
  [ SExpr (method_call (EName "uhfqa") "result_mode" [EStr "Cyclic"] []);
    SExpr (method_call (EName "uhfqa") "arm" []
             [ ("length", ECall (EName "len") [EName "rabi_amplitudes"] []);
               ("averages", EName "averages") ]);
    SExpr (method_call (EName "readout") "run" [] []);
    SExpr (method_call (EName "drive") "run" [] []);
    SExpr (method_call (EName "drive") "wait_done" [] []);
    SAssign "result" (method_call (EName "channel") "result" [] []) ].

(** T1: delay sweep and readout sequence. *)
Definition t1_setup : cell :=
  [ SAssign "drive" (ESubscript (EAttr (EName "hdawg") "awgs") (EInt 0));
    SAssign "readout" (EAttr (EName "uhfqa") "awg");
    SAssign "channel" (ESubscript (EAttr (EName "uhfqa") "channels") (EInt 0));
    SAssign "period" (EFloat 50e-6);
    SAssign "averages" (EBinOp Pow (EInt 2) (EInt 8));
    SAssign "delay_times" delay_times;
    SExpr (method_call (ESubscript (EAttr (EName "hdawg") "awgs") (EInt 0))
             "enable_iq_modulation" [] []);
    SExpr (method_call (ESubscript (EAttr (EName "hdawg") "awgs") (EInt 0))
             "modulation_freq" [EFloat 100e6] []);
    SExpr (method_call (ESubscript (EAttr (EName "hdawg") "awgs") (EInt 0))
             "set_sequence_params" []
             [ ("sequence_type", EStr "T1");
               ("pulse_width", EFloat 50e-9);
               ("delay_times", EName "delay_times");
               ("period", EName "period");
               ("repetitions", EName "averages");
               ("trigger_mode", EStr "Send Trigger") ]);
    SExpr (method_call (ESubscript (EAttr (EName "hdawg") "awgs") (EInt 0))
             "compile" [] []);
    SExpr (method_call (EName "channel") "enable" [] []);
    SExpr (method_call (EName "channel") "readout_frequency" [EFloat 123e6] []);
    SExpr (method_call (EName "readout") "set_sequence_params" []
             [ ("sequence_type", EStr "Readout");
               ("period", EName "period");
               ("pulse_lenth", EFloat 2e-6);
               ("repetitions",
                 EBinOp Mult (EName "averages")
                   (ECall (EName "len") [EName "delay_times"] []));
               ("trigger_mode", EStr "External Trigger") ]);
    SExpr (method_call (EName "readout") "compile" [] []) ].

(** T1: one acquisition. *)
Definition t1_measure : cell :=
  [ SExpr (method_call (EName "uhfqa") "arm" []
             [ ("length", ECall (EName "len") [EName "delay_times"] []);
               ("averages", EName "averages") ]);
    SExpr (method_call (EName "readout") "run" [] []);
    SExpr (method_call (EName "drive") "run" [] []);
    SExpr (method_call (EName "drive") "wait_done" [] []);
    SAssign "result" (method_call (EName "channel") "result" [] []) ].

(** The path as Python reads the literal: [\a] is the escape of the bell
    character, the other backslashes stand for themselves. *)
Definition custom_path : string :=
  "...\Zurich Instruments\LabOne\WebServer" ++ String "007"%char "wg\src\myProgram.seqC".

(** Custom sequence. *)
Definition custom : cell :=
  [ SExpr (method_call (EName "awg") "set_sequence_params" []
             [ ("path", EStr custom_path);
               ("custom_params", EList [EInt 1000; EInt 99; EInt 1]) ]) ].

Definition cells : list cell :=
  [ connect; resonator_setup; resonator_sweep; qubit_setup; qubit_sweep;
    rabi_setup; rabi_measure; t1_setup; t1_measure; custom ].

End Notebook.

(** ** Vocabulary of the properties *)

(** The kernel once the first cell has connected the devices. *)
Definition after_connect (lib : library) : state :=
  run_cells lib [Notebook.connect] fresh.

(** The calls a cell made when it was run from [s]. *)
Definition calls_since (s : state) (o : outcome unit) : list call :=
  drop (length (trace s)) (trace (final_state o)).

(** *** Sweeps *)

Definition loop_body (st : stmt) : list stmt :=
  match st with
  | SFor _ _ body => body
  | _ => []
  end.

(** The six calls of one sweep point, in the order they are made. *)
Definition iteration (set_frequency uhfqa readout awg channel : handle) (f : float)
  : list call :=
  [ Call set_frequency [VFloat f] [];
    Call (HAttr uhfqa "arm") [] [];
    Call (HAttr readout "run") [] [];
    Call (HAttr awg "run") [] [];
    Call (HAttr awg "wait_done") [] [];
    Call (HAttr channel "result") [] [] ].

(** The averages of [count] sweep points, when the first call of the sweep
    is logged at position [start]: the [result()] call of sweep point [k]
    is the sixth call of its iteration. *)
Definition averages (lib : library) (start count : nat) : list float :=
  map (fun k => Numpy.mean (acquired lib (start + 6 * k + 5))) (seq 0 count).

(** What the resonator sweep needs from the namespace: the objects it
    calls, as the two cells before it and its own first lines bind them. *)
Record resonator_ready (uhfqa readout trigger : handle) (s : state) : Prop := {
  resonator_np : ns s !! "np" = Some (VModule "numpy");
  resonator_uhfqa : ns s !! "uhfqa" = Some (VObj uhfqa);
  resonator_readout : ns s !! "readout" = Some (VObj readout);
  resonator_trigger : ns s !! "trigger" = Some (VObj trigger);
  resonator_freq :
    ns s !! "modulation_freq"
    = Some (VObj (HAttr (HAttr (HAttr uhfqa "nodetree") "osc") "freq"))
}.

(** What the qubit sweep needs from the namespace. *)
Record qubit_ready (uhfqa readout drive channel : handle) (s : state) : Prop := {
  qubit_np : ns s !! "np" = Some (VModule "numpy");
  qubit_uhfqa : ns s !! "uhfqa" = Some (VObj uhfqa);
  qubit_readout : ns s !! "readout" = Some (VObj readout);
  qubit_drive : ns s !! "drive" = Some (VObj drive);
  qubit_channel : ns s !! "channel" = Some (VObj channel)
}.

(** *** Configuration before compilation *)

Definition is_some {A} (o : option A) : bool :=
  match o with Some _ => true | None => false end.

(** [p] configures the AWG core that [c] is called on: it is a
    [set_sequence_params] call on the same object and it selects a
    sequence type, a period and a number of repetitions. *)
Definition configures (c p : call) : bool :=
  String.eqb (method p) "set_sequence_params"
  && handle_eqb (receiver p) (receiver c)
  && is_some (kwarg "sequence_type" p)
  && is_some (kwarg "period" p)
  && is_some (kwarg "repetitions" p).

(** Every compilation in [later] comes after a configuration of the same
    AWG core, in [earlier] or in [later] itself. *)
Fixpoint configured_first (earlier later : list call) : bool :=
  match later with
  | [] => true
  | c :: rest =>
      (if is_compile c then existsb (configures c) earlier else true)
      && configured_first (earlier ++ [c]) rest
  end.

(** *** Shape of the cells *)

Fixpoint mentions (p : stmt -> bool) (st : stmt) : bool :=
  let any := fix any (b : list stmt) : bool :=
    match b with
    | [] => false
    | st' :: b' => mentions p st' || any b'
    end in
  p st ||
  match st with
  | SFor _ _ body => any body
  | SIf _ body orelse => any body || any orelse
  | STry body handler => any body || any handler
  | SFunctionDef _ _ body => any body
  | SClassDef _ body => any body
  | _ => false
  end.

Definition is_definition (st : stmt) : bool :=
  match st with
  | SFunctionDef _ _ _ | SClassDef _ _ => true
  | _ => false
  end.

Definition is_branch (st : stmt) : bool :=
  match st with
  | SIf _ _ _ | STry _ _ => true
  | _ => false
  end.

(** The iterables of the loops of a cell. *)
Fixpoint iterables (st : stmt) : list expr :=
  let all := fix all (b : list stmt) : list expr :=
    match b with
    | [] => []
    | st' :: b' => iterables st' ++ all b'
    end in
  match st with
  | SFor _ iter body => iter :: all body
  | SIf _ body orelse => all body ++ all orelse
  | STry body handler => all body ++ all handler
  | SFunctionDef _ _ body => all body
  | SClassDef _ body => all body
  | _ => []
  end.

(** The callees of the calls written in an expression, outermost first. *)
Fixpoint callees (e : expr) : list expr :=
  let all := fix all (es : list expr) : list expr :=
    match es with
    | [] => []
    | e' :: es' => callees e' ++ all es'
    end in
  match e with
  | EList es => all es
  | EAttr e' _ => callees e'
  | ESubscript e' k => callees e' ++ callees k
  | ECall f args kwargs =>
      f :: callees f ++ all args
        ++ (fix kw (kes : list (string * expr)) : list expr :=
              match kes with
              | [] => []
              | (_, e') :: kes' => callees e' ++ kw kes'
              end) kwargs
  | EBinOp _ l r => callees l ++ callees r
  | _ => []
  end.

Fixpoint stmt_callees (st : stmt) : list expr :=
  let all := fix all (b : list stmt) : list expr :=
    match b with
    | [] => []
    | st' :: b' => stmt_callees st' ++ all b'
    end in
  match st with
  | SImport _ _ => []
  | SAssign _ e => callees e
  | SExpr e => callees e
  | SFor _ iter body => callees iter ++ all body
  | SIf test body orelse => callees test ++ all body ++ all orelse
  | STry body handler => all body ++ all handler
  | SFunctionDef _ _ body => all body
  | SClassDef _ body => all body
  end.

(** The name a callee starts from and the attribute it ends with:
    [hdawg.awgs[0].compile] starts from [hdawg] and ends with [compile]. *)
Fixpoint root (e : expr) : option string :=
  match e with
  | EName x => Some x
  | EAttr e' _ => root e'
  | ESubscript e' _ => root e'
  | _ => None
  end.

Definition operation (e : expr) : option string :=
  match e with
  | EName x => Some x
  | EAttr _ attr => Some attr
  | _ => None
  end.

Inductive provider := Toolkit | NumpyModule | Builtin.

(** Who implements what a callee evaluates to. *)
Definition provider_of (v : value) : option provider :=
  match v with
  | VObj _ => Some Toolkit
  | VNumpy _ => Some NumpyModule
  | VBuiltin _ => Some Builtin
  | _ => None
  end.

(** A callee is provided from outside when it starts from a name and,
    where that name is bound, it evaluates -- no call being made on the
    way -- to an object of the toolkit, a numpy function or a builtin. *)
Definition provided (lib : library) (s : state) (f : expr) : bool :=
  match root f with
  | None => false
  | Some x =>
      match lookup_name x s with
      | Raise _ _ => true
      | Ok _ _ =>
          match eval lib f s with
          | Ok v s' => is_some (provider_of v) && Nat.eqb (length (trace s')) (length (trace s))
          | Raise _ _ => false
          end
      end
  end.

(** *** Readout configurations *)

Definition is_readout_config (c : call) : bool :=
  String.eqb (method c) "set_sequence_params"
  && match kwarg "sequence_type" c with
     | Some (VStr s) => String.eqb s "Readout"
     | _ => false
     end.

(** ** Placeholders of a custom sequence program *)

Module Custom.

Definition dollar : ascii := "$"%char.

Definition is_digit (c : ascii) : bool :=
  let n := nat_of_ascii c in
  Nat.leb 48 n && Nat.leb n 57.

(** Python's [str] of an index and of an integer parameter. *)
Definition decimal (n : nat) : string := NilEmpty.string_of_uint (Nat.to_uint n).
Definition str (z : Z) : string := NilEmpty.string_of_int (Z.to_int z).

(** The placeholder of index [n]: [$param0$], [$param1$], ... *)
Definition placeholder (n : nat) : string := "$param" ++ decimal n ++ "$".

Fixpoint strip_prefix (p s : string) : option string :=
  match p, s with
  | EmptyString, _ => Some s
  | String a p', String b s' => if Ascii.eqb a b then strip_prefix p' s' else None
  | String _ _, EmptyString => None
  end.

(** The digits a text starts with, and the text after them. *)
Fixpoint span_digits (s : string) : string * string :=
  match s with
  | String c rest =>
      if is_digit c then
        let (digits, after) := span_digits rest in (String c digits, after)
      else (EmptyString, s)
  | EmptyString => (EmptyString, EmptyString)
  end.

(** The index of the placeholder a text starts with, if it starts with
    one, and the number of characters the placeholder takes. *)
Definition placeholder_at (text : string) : option (nat * nat) :=
  match strip_prefix "$param" text with
  | None => None
  | Some rest =>
      let (digits, after) := span_digits rest in
      match after, NilEmpty.uint_of_string digits with
      | String c _, Some d =>
          let n := Nat.of_uint d in
          if Ascii.eqb c dollar && String.eqb digits (decimal n)
          then Some (n, String.length (placeholder n))
          else None
      | _, _ => None
      end
  end.

(** One pass over the text; [skip] characters of a placeholder that has
    just been replaced are still to be dropped. *)
Fixpoint scan (params : list Z) (skip : nat) (text : string) : string :=
  match text with
  | EmptyString => EmptyString
  | String c rest =>
      match skip with
      | S k => scan params k rest
      | O =>
          match placeholder_at text with
          | Some (n, len) =>
              match params !! n with
              | Some p => str p ++ scan params (len - 1) rest
              | None => String c (scan params 0 rest)
              end
          | None => String c (scan params 0 rest)
          end
      end
  end.

(** Modelled from the spec: the toolkit's custom sequence, which reads the
    [.seqC] file and fills it in, is not part of the sources.  The
    notebook says: placeholders are defined by a string in the [.seqC]
    file of the format [$paramN$] where [N] is an index starting from 0,
    and they are substituted by the sequence parameter (a list)
    [custom_params].  [substitute custom_params program] is the program
    with every placeholder whose index is in the list replaced by the
    parameter of that index. *)
Definition substitute (custom_params : list Z) (program : string) : string :=
  scan custom_params 0 program.

(** A sequence program, cut at its placeholders. *)
Inductive segment :=
| Text (s : string)
| Placeholder (n : nat).

Fixpoint has_dollar (s : string) : bool :=
  match s with
  | EmptyString => false
  | String c rest => Ascii.eqb c dollar || has_dollar rest
  end.

(** A well-formed cut: the text between placeholders has no [$], and
    every placeholder has a parameter. *)
Definition well_cut (custom_params : list Z) (seg : segment) : Prop :=
  match seg with
  | Text s => has_dollar s = false
  | Placeholder n => (n < length custom_params)%nat
  end.

(** The program as it is in the file. *)
Fixpoint written (segs : list segment) : string :=
  match segs with
  | [] => EmptyString
  | Text s :: rest => s ++ written rest
  | Placeholder n :: rest => placeholder n ++ written rest
  end.

(** The program with the [N]-th parameter in the place of [$paramN$]. *)
Fixpoint filled (custom_params : list Z) (segs : list segment) : string :=
  match segs with
  | [] => EmptyString
  | Text s :: rest => s ++ filled custom_params rest
  | Placeholder n :: rest =>
      match custom_params !! n with
      | Some p => str p ++ filled custom_params rest
      | None => placeholder n ++ filled custom_params rest
      end
  end.

End Custom.

(** A result vector is read only right after the AWG core [awg] has been
    waited for: the call before any [result()] in [cs] is
    [awg.wait_done()]. *)
Definition waits_before_result (awg : handle) (cs : list call) : Prop :=
  forall pre c post, cs = pre ++ c :: post -> method c = "result" ->
    exists pre', pre = pre' ++ [Call (HAttr awg "wait_done") [] []].

(** The objects of the two devices, as the first cell obtains them. *)
Module Devices.
Definition mdc : handle := HResult 0.
Definition hdawg : handle := HItem (HAttr mdc "hdawgs") (KStr "hdawg 1").
Definition uhfqa : handle := HItem (HAttr mdc "uhfqas") (KStr "uhfqa 1").
Definition awg0 : handle := HItem (HAttr hdawg "awgs") (KInt 0).      (* hdawg.awgs[0] *)
Definition readout : handle := HAttr uhfqa "awg".                    (* uhfqa.awg *)
Definition channel0 : handle := HItem (HAttr uhfqa "channels") (KInt 0).
Definition modulation_freq : handle :=
  HAttr (HAttr (HAttr uhfqa "nodetree") "osc") "freq".
End Devices.

(** The calls of the acquisition that follows the Rabi configuration. *)
Definition rabi_acquisition : list call :=
  [ Call (HAttr Devices.uhfqa "result_mode") [VStr "Cyclic"] [];
    Call (HAttr Devices.uhfqa "arm") []
      [("length", VInt 101); ("averages", VInt 256)];
    Call (HAttr Devices.readout "run") [] [];
    Call (HAttr Devices.awg0 "run") [] [];
    Call (HAttr Devices.awg0 "wait_done") [] [];
    Call (HAttr Devices.channel0 "result") [] [] ].

(** A library that reports every compilation as successful and reads back
    empty result vectors. *)
Definition quiet : library := Library (fun _ => true) (fun _ => []).

(** *** What the notebook can observe of a run *)

(** Two kernels agree when they hold the same namespace and have made the
    same calls; what has been printed is not compared. *)
Definition agree (s1 s2 : state) : Prop :=
  ns s1 = ns s2 /\ trace s1 = trace s2.

Definition agree_outcome {A} (o1 o2 : outcome A) : Prop :=
  match o1, o2 with
  | Ok a s1, Ok b s2 => a = b /\ agree s1 s2
  | Raise e s1, Raise e' s2 => e = e' /\ agree s1 s2
  | _, _ => False
  end.

(** Two computations that cannot be told apart from agreeing kernels. *)
Definition alike {A} (m1 m2 : M A) : Prop :=
  forall s1 s2, agree s1 s2 -> agree_outcome (m1 s1) (m2 s2).

(** The positions in the trace of the compilations of a run. *)
Definition compilations (t : list call) : list nat :=
  map fst (List.filter (fun ic => is_compile (snd ic)) (combine (seq 0 (length t)) t)).

Definition report (lib : library) (n : nat) : status :=
  if compiles lib n then Success else Failure.

(** *** Induction over the syntax *)

Section ExprInduction.

Variable P : expr -> Prop.
Hypothesis name_case : forall x, P (EName x).
Hypothesis int_case : forall z, P (EInt z).
Hypothesis float_case : forall x, P (EFloat x).
Hypothesis str_case : forall s, P (EStr s).
Hypothesis list_case : forall es, Forall P es -> P (EList es).
Hypothesis attr_case : forall e attr, P e -> P (EAttr e attr).
Hypothesis subscript_case : forall e k, P e -> P k -> P (ESubscript e k).
Hypothesis call_case : forall f args kwargs,
  P f -> Forall P args -> Forall (fun ke => P (snd ke)) kwargs ->
  P (ECall f args kwargs).
Hypothesis binop_case : forall op l r, P l -> P r -> P (EBinOp op l r).

Fixpoint expr_induction (e : expr) : P e :=
  match e with
  | EName x => name_case x
  | EInt z => int_case z
  | EFloat x => float_case x
  | EStr s => str_case s
  | EList es =>
      list_case es
        ((fix all (es : list expr) : Forall P es :=
            match es with
            | [] => @List.Forall_nil _ P
            | e' :: es' => @List.Forall_cons _ P e' es' (expr_induction e') (all es')
            end) es)
  | EAttr e' attr => attr_case e' attr (expr_induction e')
  | ESubscript e' k => subscript_case e' k (expr_induction e') (expr_induction k)
  | ECall f args kwargs =>
      call_case f args kwargs (expr_induction f)
        ((fix all (es : list expr) : Forall P es :=
            match es with
            | [] => @List.Forall_nil _ P
            | e' :: es' => @List.Forall_cons _ P e' es' (expr_induction e') (all es')
            end) args)
        ((fix all (kes : list (string * expr)) : Forall (fun ke => P (snd ke)) kes :=
            match kes with
            | [] => List.Forall_nil _
            | ke :: kes' =>
                @List.Forall_cons _ (fun ke => P (snd ke)) ke kes'
                  (expr_induction (snd ke)) (all kes')
            end) kwargs)
  | EBinOp op l r => binop_case op l r (expr_induction l) (expr_induction r)
  end.

End ExprInduction.

Section StmtInduction.

Variable P : stmt -> Prop.
Hypothesis import_case : forall m a, P (SImport m a).
Hypothesis assign_case : forall x e, P (SAssign x e).
Hypothesis expr_case : forall e, P (SExpr e).
Hypothesis for_case : forall x iter body, Forall P body -> P (SFor x iter body).
Hypothesis if_case : forall test body orelse,
  Forall P body -> Forall P orelse -> P (SIf test body orelse).
Hypothesis try_case : forall body handler,
  Forall P body -> Forall P handler -> P (STry body handler).
Hypothesis def_case : forall name params body, P (SFunctionDef name params body).
Hypothesis class_case : forall name body, P (SClassDef name body).

Fixpoint stmt_induction (st : stmt) : P st :=
  let all :=
    fix all (b : list stmt) : Forall P b :=
      match b with
      | [] => @List.Forall_nil _ P
      | st' :: b' => @List.Forall_cons _ P st' b' (stmt_induction st') (all b')
      end in
  match st with
  | SImport m a => import_case m a
  | SAssign x e => assign_case x e
  | SExpr e => expr_case e
  | SFor x iter body => for_case x iter body (all body)
  | SIf test body orelse => if_case test body orelse (all body) (all orelse)
  | STry body handler => try_case body handler (all body) (all handler)
  | SFunctionDef name params body => def_case name params body
  | SClassDef name body => class_case name body
  end.

End StmtInduction.

(** *** Inventory of the notebook *)

(** The elements of a list of names, each at its first occurrence. *)
Fixpoint distinct (seen l : list string) : list string :=
  match l with
  | [] => []
  | x :: l' =>
      if existsb (String.eqb x) seen then distinct seen l'
      else x :: distinct (x :: seen) l'
  end.

(** Every top-level statement of the notebook run in order, a statement
    that raises being passed over. *)
Definition run_lines (lib : library) (cs : list cell) (s : state) : state :=
  fold_left (fun s st => final_state (exec lib st s)) (concat cs) s.

(** The configuration cells: each sets up the sequences of one experiment. *)
Definition setups : list cell :=
  [ Notebook.resonator_setup; Notebook.qubit_setup;
    Notebook.rabi_setup; Notebook.t1_setup ].

(** The kernel the resonator sweep is run in: only the two cells before it
    have been run. *)
Definition before_resonator_sweep (lib : library) : state :=
  run_cells lib [Notebook.connect; Notebook.resonator_setup] fresh.

(** A sequence program with the three placeholders of the example. *)
Definition sample_program : list Custom.segment :=
  [ Custom.Text "repeat (";
    Custom.Placeholder 0;
    Custom.Text ") { playWave(ones(";
    Custom.Placeholder 1;
    Custom.Text ")); wait(";
    Custom.Placeholder 2;
    Custom.Text "); }" ].


(** ** The experiments, call by call *)

(** What every cell after the first needs from the kernel: numpy under
    [np], the two devices under [hdawg] and [uhfqa], and the builtins
    [int] and [len] not hidden by a global of the same name. *)
Record connected (hdawg uhfqa : handle) (s : state) : Prop := {
  connected_np : ns s !! "np" = Some (VModule "numpy");
  connected_hdawg : ns s !! "hdawg" = Some (VObj hdawg);
  connected_uhfqa : ns s !! "uhfqa" = Some (VObj uhfqa);
  connected_int : ns s !! "int" = None;
  connected_len : ns s !! "len" = None
}.

Module Expected.

(** [hdawg.awgs[0]], [uhfqa.awg] and [uhfqa.channels[0]]. *)
Definition core (hdawg : handle) : handle := HItem (HAttr hdawg "awgs") (KInt 0).
Definition readout (uhfqa : handle) : handle := HAttr uhfqa "awg".
Definition channel (uhfqa : handle) : handle :=
  HItem (HAttr uhfqa "channels") (KInt 0).

(** The calls of the first cell, when the connection object is the one
    returned by the call logged at position [n]. *)
Definition connect (n : nat) : list call :=
  [ Call (HGlobal "zhinst.toolkit" "MultiDeviceConnection") []
      [("host", VStr "10.42.0.226")];
    Call (HAttr (HResult n) "setup") [] [];
    Call (HGlobal "zhinst.toolkit" "HDAWG") [VStr "hdawg 1"; VStr "dev8030"] [];
    Call (HAttr (HResult n) "connect_device") [VObj (HResult (n + 2))] [];
    Call (HGlobal "zhinst.toolkit" "UHFQA") [VStr "uhfqa 1"; VStr "dev2266"] [];
    Call (HAttr (HResult n) "connect_device") [VObj (HResult (n + 4))] [] ].

Definition resonator_setup (hdawg uhfqa : handle) : list call :=
  [ Call (HAttr (core hdawg) "set_sequence_params") []
      [ ("sequence_type", VStr "Trigger");
        ("period", VFloat 10e-6);
        ("repetitions", VFloat 1e3) ];
    Call (HAttr (core hdawg) "compile") [] [];
    Call (HAttr (readout uhfqa) "set_sequence_params") []
      [ ("sequence_type", VStr "Pulsed Spectroscopy");
        ("period", VFloat 10e-6);
        ("repetitions", VFloat 1e3);
        ("trigger_mode", VStr "External Trigger") ];
    Call (HAttr (readout uhfqa) "compile") [] [] ].

(** The drive pulse of the qubit spectroscopy: 12000 samples equal to 1. *)
Definition drive_wave : list float := repeat 1%float 12000.

Definition qubit_setup (hdawg uhfqa : handle) : list call :=
  [ Call (HAttr (core hdawg) "set_sequence_params") []
      [ ("sequence_type", VStr "Simple");
        ("period", VFloat 10e-6);
        ("repetitions", VInt 100);
        ("trigger_mode", VStr "Send Trigger") ];
    Call (HAttr (core hdawg) "reset_queue") [] [];
    Call (HAttr (core hdawg) "queue_waveform")
      [VArray drive_wave; VArray drive_wave] [];
    Call (HAttr (core hdawg) "compile_and_upload_waveforms") [] [];
    Call (HAttr (channel uhfqa) "enable") [] [];
    Call (HAttr (channel uhfqa) "readout_frequency") [VFloat 123e6] [];
    Call (HAttr (readout uhfqa) "set_sequence_params") []
      [ ("sequence_type", VStr "Readout");
        ("period", VFloat 10e-6);
        ("repetitions", VInt 100);
        ("pulse_lenth", VFloat 2e-6);
        ("trigger_mode", VStr "External Trigger") ];
    Call (HAttr (readout uhfqa) "compile") [] [] ].

(** The sweep points of the two sequence experiments, as numpy lays them
    out. *)
Definition rabi_amplitudes : list float :=
  default [] (Numpy.linspace (Py64.of_Z 0) 1.0 101).

Definition delay_times : list float :=
  default [] (Numpy.linspace 0.5e-6 20e-6 40).

(** The configuration of a sweep played by the HDAWG itself: the sequence
    [sequence] sweeps the parameter [swept] over [points], and the readout
    plays [pulses] pulses. *)
Definition sequence_setup (sequence swept : string) (period : float)
    (pulse_first : bool) (pulses : Z) (hdawg uhfqa : handle) (points : list float)
  : list call :=
  [ Call (HAttr (core hdawg) "enable_iq_modulation") [] [];
    Call (HAttr (core hdawg) "modulation_freq") [VFloat 100e6] [];
    Call (HAttr (core hdawg) "set_sequence_params") []
      [ ("sequence_type", VStr sequence);
        ("pulse_width", VFloat 50e-9);
        (swept, VArray points);
        ("period", VFloat period);
        ("repetitions", VInt 256);
        ("trigger_mode", VStr "Send Trigger") ];
    Call (HAttr (core hdawg) "compile") [] [];
    Call (HAttr (channel uhfqa) "enable") [] [];
    Call (HAttr (channel uhfqa) "readout_frequency") [VFloat 123e6] [];
    Call (HAttr (readout uhfqa) "set_sequence_params") []
      (if pulse_first then
         [ ("sequence_type", VStr "Readout");
           ("period", VFloat period);
           ("pulse_lenth", VFloat 2e-6);
           ("repetitions", VInt pulses);
           ("trigger_mode", VStr "External Trigger") ]
       else
         [ ("sequence_type", VStr "Readout");
           ("period", VFloat period);
           ("repetitions", VInt pulses);
           ("trigger_mode", VStr "External Trigger");
           ("pulse_lenth", VFloat 2e-6) ]);
    Call (HAttr (readout uhfqa) "compile") [] [] ].

Definition rabi_setup (hdawg uhfqa : handle) : list call :=
  sequence_setup "Rabi" "pulse_amplitudes" 10e-6 false (256 * 101)
    hdawg uhfqa rabi_amplitudes.

Definition t1_setup (hdawg uhfqa : handle) : list call :=
  sequence_setup "T1" "delay_times" 50e-6 true (256 * 40)
    hdawg uhfqa delay_times.

(** One acquisition of [points] results, averaged 256 times. *)
Definition acquisition (hdawg uhfqa : handle) (points : Z) : list call :=
  [ Call (HAttr uhfqa "arm") [] [("length", VInt points); ("averages", VInt 256)];
    Call (HAttr (readout uhfqa) "run") [] [];
    Call (HAttr (core hdawg) "run") [] [];
    Call (HAttr (core hdawg) "wait_done") [] [];
    Call (HAttr (channel uhfqa) "result") [] [] ].

End Expected.

(** The four configuration cells, and the calls each is to make. *)
Inductive setup := ResonatorSetup | QubitSetup | RabiSetup | T1Setup.

Definition setup_cell (k : setup) : cell :=
  match k with
  | ResonatorSetup => Notebook.resonator_setup
  | QubitSetup => Notebook.qubit_setup
  | RabiSetup => Notebook.rabi_setup
  | T1Setup => Notebook.t1_setup
  end.

Definition setup_calls (hdawg uhfqa : handle) (k : setup) : list call :=
  match k with
  | ResonatorSetup => Expected.resonator_setup hdawg uhfqa
  | QubitSetup => Expected.qubit_setup hdawg uhfqa
  | RabiSetup => Expected.rabi_setup hdawg uhfqa
  | T1Setup => Expected.t1_setup hdawg uhfqa
  end.

(** What an acquisition cell needs from its configuration cell: the
    objects under [uhfqa], [readout], [drive] and [channel], the sweep
    points under [swept] and the number of averages. *)
Record sweep_configured (hdawg uhfqa : handle) (swept : string)
    (points : list float) (s : state) : Prop := {
  configured_uhfqa : ns s !! "uhfqa" = Some (VObj uhfqa);
  configured_readout : ns s !! "readout" = Some (VObj (Expected.readout uhfqa));
  configured_drive : ns s !! "drive" = Some (VObj (Expected.core hdawg));
  configured_channel : ns s !! "channel" = Some (VObj (Expected.channel uhfqa));
  configured_points : ns s !! swept = Some (VArray points);
  configured_averages : ns s !! "averages" = Some (VInt 256);
  configured_len : ns s !! "len" = None
}.

(** A computation that only adds calls to the trace. *)
Definition appends {A} (m : M A) : Prop :=
  forall s, exists more, trace (final_state (m s)) = trace s ++ more.

(** What each cell raised, the cells being run one after the other. *)
Fixpoint cell_errors (lib : library) (cs : list cell) (s : state)
  : list (option error) :=
  match cs with
  | [] => []
  | c :: cs' =>
      let o := run_cell lib c s in
      raised o :: cell_errors lib cs' (final_state o)
  end.


(** The sweep points of the two sweep cells, as numpy lays them out. *)
Definition resonator_points : list float :=
  default [] (Numpy.linspace 50e6 100e6 101).

Definition qubit_points : list float :=
  default [] (Numpy.linspace 20e6 50e6 101).

(** The kernel in which the notebook, run from top to bottom, starts its
    qubit sweep: the four cells before the qubit sweep cell have been run
    (the resonator sweep cell has raised), then the lines of the qubit
    sweep cell before the sweep points are defined, then the lines before
    the loop. *)
Definition before_qubit_points (lib : library) : state :=
  final_state
    (exec_block lib (take 2 Notebook.qubit_sweep)
       (run_cells lib
          [ Notebook.connect; Notebook.resonator_setup;
            Notebook.resonator_sweep; Notebook.qubit_setup ] fresh)).

Definition before_qubit_loop (lib : library) : state :=
  final_state
    (exec_block lib (take 3 (drop 2 Notebook.qubit_sweep)) (before_qubit_points lib)).

(** A kernel the notebook never produces: after the two cells before the
    resonator sweep cell, the lines of that cell that follow the one that
    raises are run -- the assignment of [modulation_freq], and then the
    assignments of [frequencies] and [results]. *)
Definition before_resonator_points (lib : library) : state :=
  final_state
    (exec_block lib (take 1 (drop 2 Notebook.resonator_sweep))
       (before_resonator_sweep lib)).

Definition before_resonator_loop (lib : library) : state :=
  final_state
    (exec_block lib (take 2 (drop 3 Notebook.resonator_sweep))
       (before_resonator_points lib)).

(** The names a statement can bind. *)
Fixpoint targets (st : stmt) : list string :=
  let all := fix all (b : list stmt) : list string :=
    match b with
    | [] => []
    | st' :: b' => targets st' ++ all b'
    end in
  match st with
  | SImport _ alias => [alias]
  | SAssign x _ => [x]
  | SExpr _ => []
  | SFor x _ body => x :: all body
  | SIf _ body orelse => all body ++ all orelse
  | STry body handler => all body ++ all handler
  | SFunctionDef _ _ _ => []
  | SClassDef _ _ => []
  end.

Definition block_targets (b : list stmt) : list string := flat_map targets b.

Definition binds (x : string) (names : list string) : bool :=
  existsb (String.eqb x) names.

(** A computation that leaves the binding of [x] as it was. *)
Definition preserves {A} (x : string) (m : M A) : Prop :=
  forall s, ns (final_state (m s)) !! x = ns s !! x.

(** Cells of the notebook, in any order and any number of times. *)
Definition of_notebook (cs : list cell) : Prop :=
  Forall (fun c => In c Notebook.cells) cs.

(** * Properties *)

(** ** Running statements *)

Lemma exec_loop_unfold lib x body items s :
  (fix loop (items : list value) : M unit :=
     match items with
     | [] => ret tt
     | item :: rest => bind_name x item;;; exec_block lib body;;; loop rest
     end) items s
  = exec_loop lib x body items s.
Proof.
  revert s. induction items as [|item rest IH]; intros s; [reflexivity|].
  cbn [exec_loop]. unfold bind in *. cbn.
  destruct (exec_block lib body _) as [[] s'|]; [|reflexivity].
  apply IH.
Qed.

Lemma exec_for lib x iter body s :
  exec lib (SFor x iter body) s
  = (v <- eval lib iter;; items <- iterate v;; exec_loop lib x body items) s.
Proof.
  cbn [exec]. unfold bind.
  destruct (eval lib iter s) as [v s1|]; [|reflexivity].
  destruct (iterate v s1) as [items s2|]; [|reflexivity].
  exact (exec_loop_unfold lib x body items s2).
Qed.

Lemma lookup_name_bound x v s : ns s !! x = Some v -> lookup_name x s = Ok v s.
Proof. intros H. unfold lookup_name. now rewrite H. Qed.

Lemma averages_first lib start count :
  averages lib start (S count)
  = Numpy.mean (acquired lib (start + 5)) :: averages lib (start + 6) count.
Proof.
  unfold averages. cbn [seq map]. f_equal; [f_equal; f_equal; lia|].
  rewrite <- seq_shift, map_map. apply map_ext. intros k. do 2 f_equal. lia.
Qed.

Lemma averages_length lib start count : length (averages lib start count) = count.
Proof. unfold averages. now rewrite length_map, length_seq. Qed.

Ltac lookups :=
  repeat first
    [ rewrite lookup_insert_eq
    | rewrite lookup_insert_ne by discriminate
    | match goal with H : ?m !! ?x = Some _ |- context [?m !! ?x] => rewrite H end ].

Ltac run :=
  repeat progress
    (unfold run_cell, bind, ret, raise, bind_name, lookup_name;
     lookups;
     cbn -[lookup insert Numpy.mean Numpy.append Numpy.linspace]).

Section Sweeps.

Variable lib : library.
Variables uhfqa readout trigger drive channel : handle.

Let resonator_point :=
  iteration (HAttr (HAttr (HAttr uhfqa "nodetree") "osc") "freq")
    uhfqa readout trigger (HItem (HAttr uhfqa "channels") (KInt 0)).

Let qubit_point :=
  iteration (HAttr drive "modulation_freq") uhfqa readout drive channel.

Lemma resonator_step s f rs :
  resonator_ready uhfqa readout trigger s ->
  ns s !! "results" = Some (VArray rs) ->
  exists s',
    (bind_name "f" (VFloat f);;;
     exec_block lib (loop_body Notebook.resonator_loop)) s = Ok tt s'
    /\ resonator_ready uhfqa readout trigger s'
    /\ trace s' = trace s ++ resonator_point f
    /\ ns s' !! "frequencies" = ns s !! "frequencies"
    /\ ns s' !! "results"
       = Some (VArray (rs ++ [Numpy.mean (acquired lib (length (trace s) + 5))])).
Proof.
  intros [] Hrs. destruct s as [m t p]. simpl in *. run.
  eexists. split; [reflexivity|]. split; [|split; [|split]].
  - constructor; simpl; lookups; reflexivity.
  - simpl. now rewrite <- !app_assoc.
  - simpl. now lookups.
  - simpl. lookups. rewrite !length_app. simpl. unfold Numpy.append.
    now rewrite <- !Nat.add_assoc.
Qed.

Lemma qubit_step s f rs :
  qubit_ready uhfqa readout drive channel s ->
  ns s !! "results" = Some (VArray rs) ->
  exists s',
    (bind_name "f" (VFloat f);;;
     exec_block lib (loop_body Notebook.qubit_loop)) s = Ok tt s'
    /\ qubit_ready uhfqa readout drive channel s'
    /\ trace s' = trace s ++ qubit_point f
    /\ ns s' !! "frequencies" = ns s !! "frequencies"
    /\ ns s' !! "results"
       = Some (VArray (rs ++ [Numpy.mean (acquired lib (length (trace s) + 5))])).
Proof.
  intros [] Hrs. destruct s as [m t p]. simpl in *. run.
  eexists. split; [reflexivity|]. split; [|split; [|split]].
  - constructor; simpl; lookups; reflexivity.
  - simpl. now rewrite <- !app_assoc.
  - simpl. now lookups.
  - simpl. lookups. rewrite !length_app. simpl. unfold Numpy.append.
    now rewrite <- !Nat.add_assoc.
Qed.

(** A sweep whose every point does the six calls of [point] and appends
    one average: all the points, in order. *)
Lemma sweep_loop (ready : state -> Prop) (body : list stmt)
    (point : float -> list call) :
  (forall f, length (point f) = 6%nat) ->
  (forall s f rs, ready s -> ns s !! "results" = Some (VArray rs) ->
     exists s',
       (bind_name "f" (VFloat f);;; exec_block lib body) s = Ok tt s'
       /\ ready s'
       /\ trace s' = trace s ++ point f
       /\ ns s' !! "frequencies" = ns s !! "frequencies"
       /\ ns s' !! "results"
          = Some (VArray (rs ++ [Numpy.mean (acquired lib (length (trace s) + 5))]))) ->
  forall fs s rs, ready s -> ns s !! "results" = Some (VArray rs) ->
    exists s',
      exec_loop lib "f" body (map VFloat fs) s = Ok tt s'
      /\ ready s'
      /\ trace s' = trace s ++ flat_map point fs
      /\ ns s' !! "frequencies" = ns s !! "frequencies"
      /\ ns s' !! "results"
         = Some (VArray (rs ++ averages lib (length (trace s)) (length fs))).
Proof.
  intros Hlen Hstep fs. induction fs as [|f fs IH]; intros s rs Hready Hrs.
  - exists s. cbn. rewrite !app_nil_r. auto.
  - destruct (Hstep s f rs Hready Hrs)
      as (s1 & Hrun & Hready1 & Htrace1 & Hfs1 & Hrs1).
    destruct (IH s1 _ Hready1 Hrs1)
      as (s2 & Hloop & Hready2 & Htrace2 & Hfs2 & Hrs2).
    exists s2. split; [|split; [assumption|split; [|split; [congruence|]]]].
    + cbn [map exec_loop]. unfold bind in *.
      destruct (bind_name "f" (VFloat f) s) as [[] s0|]; [|discriminate].
      destruct (exec_block lib body s0) as [[] s0'|]; [|discriminate].
      now inversion Hrun; subst.
    + rewrite Htrace2, Htrace1. cbn [flat_map]. now rewrite app_assoc.
    + rewrite Hrs2, Htrace1, length_app, Hlen. cbn [length].
      now rewrite averages_first, <- app_assoc.
Qed.

Lemma resonator_loop_runs s fs rs :
  resonator_ready uhfqa readout trigger s ->
  ns s !! "frequencies" = Some (VArray fs) ->
  ns s !! "results" = Some (VArray rs) ->
  exists s',
    exec lib Notebook.resonator_loop s = Ok tt s'
    /\ resonator_ready uhfqa readout trigger s'
    /\ trace s' = trace s ++ flat_map resonator_point fs
    /\ ns s' !! "frequencies" = ns s !! "frequencies"
    /\ ns s' !! "results"
       = Some (VArray (rs ++ averages lib (length (trace s)) (length fs))).
Proof.
  intros Hready Hfs Hrs. unfold Notebook.resonator_loop. rewrite exec_for.
  unfold bind at 1. cbn [eval]. rewrite (lookup_name_bound _ _ _ Hfs).
  unfold bind at 1. cbn [iterate ret].
  apply (sweep_loop (resonator_ready uhfqa readout trigger)); auto.
  intros. now apply resonator_step.
Qed.

Lemma qubit_loop_runs s fs rs :
  qubit_ready uhfqa readout drive channel s ->
  ns s !! "frequencies" = Some (VArray fs) ->
  ns s !! "results" = Some (VArray rs) ->
  exists s',
    exec lib Notebook.qubit_loop s = Ok tt s'
    /\ qubit_ready uhfqa readout drive channel s'
    /\ trace s' = trace s ++ flat_map qubit_point fs
    /\ ns s' !! "frequencies" = ns s !! "frequencies"
    /\ ns s' !! "results"
       = Some (VArray (rs ++ averages lib (length (trace s)) (length fs))).
Proof.
  intros Hready Hfs Hrs. unfold Notebook.qubit_loop. rewrite exec_for.
  unfold bind at 1. cbn [eval]. rewrite (lookup_name_bound _ _ _ Hfs).
  unfold bind at 1. cbn [iterate ret].
  apply (sweep_loop (qubit_ready uhfqa readout drive channel)); auto.
  intros. now apply qubit_step.
Qed.

End Sweeps.

Lemma iteration_waits set_frequency uhfqa readout awg channel fs :
  method (Call set_frequency [] []) <> "result" ->
  waits_before_result awg
    (flat_map (iteration set_frequency uhfqa readout awg channel) fs).
Proof.
  intros Hset. induction fs as [|f fs IH]; intros pre c post Hcs Hres.
  - destruct pre; discriminate.
  - cbn [flat_map] in Hcs. symmetry in Hcs.
    apply app_eq_app in Hcs as [l [[Hpre Hrest]|[Hpoint Hrest]]].
    + destruct (IH l c post Hrest Hres) as [pre' ->].
      exists (iteration set_frequency uhfqa readout awg channel f ++ pre').
      now rewrite Hpre, app_assoc.
    + destruct l as [|c' l].
      * destruct (IH [] c post (eq_sym Hrest) Hres) as [pre' Hnil].
        destruct pre'; discriminate.
      * injection Hrest as <- _. unfold iteration in Hpoint.
        do 5 (destruct pre as [|? pre];
              [injection Hpoint as <-; first [contradiction|discriminate]|];
              injection Hpoint as <- Hpoint).
        destruct pre as [|? pre]; [|destruct pre; discriminate].
        now eexists [_; _; _; _].
Qed.

Lemma removelast_length' {A} (l : list A) : length (removelast l) = pred (length l).
Proof.
  induction l as [|a [|b l] IH]; [reflexivity..|].
  change (S (length (removelast (b :: l))) = S (length l)). now rewrite IH.
Qed.

Lemma arange_length n : length (Numpy.arange n) = n.
Proof. unfold Numpy.arange. now rewrite length_map, length_seq. Qed.

Lemma set_last_length y x : length (Numpy.set_last y x) = length y.
Proof.
  destruct y as [|a y]; [reflexivity|]. unfold Numpy.set_last.
  rewrite length_app, removelast_length'. cbn. lia.
Qed.

(** [linspace] gives as many samples as it is asked for. *)
Lemma linspace_length start stop num :
  0 <= num ->
  exists xs, Numpy.linspace start stop num = Some xs /\ length xs = Z.to_nat num.
Proof.
  intros Hnum. unfold Numpy.linspace.
  destruct (Z.ltb_spec num 0) as [|_]; [lia|].
  eexists. split; [reflexivity|].
  destruct (1 <? num)%Z; [rewrite set_last_length|];
    rewrite length_map; destruct (0 <? num - 1)%Z;
    [destruct (Py64.is_zero _)|..|destruct (Py64.is_zero _)|];
    now rewrite length_map, arange_length.
Qed.

Section SweepResults.
Variable lib : library.
Variables uhfqa readout trigger drive channel : handle.

Lemma resonator_results s :
  resonator_ready uhfqa readout trigger s ->
  let start := exec_block lib (take 2 (drop 3 Notebook.resonator_sweep)) s in
  let o := exec_block lib (drop 3 Notebook.resonator_sweep) s in
  ns (final_state start) !! "results" = Some (VArray [])
  /\ raised o = None
  /\ exists fs,
       length fs = 101%nat
       /\ ns (final_state o) !! "frequencies" = Some (VArray fs)
       /\ calls_since s o
          = flat_map (iteration (HAttr (HAttr (HAttr uhfqa "nodetree") "osc") "freq")
                        uhfqa readout trigger (HItem (HAttr uhfqa "channels") (KInt 0))) fs
       /\ ns (final_state o) !! "results"
          = Some (VArray (averages lib (length (trace s)) 101)).
Proof.
  intros Hready.
  destruct (linspace_length 50e6 100e6 101 ltac:(lia)) as (fs & Hfs & Hlen).
  destruct Hready as [Hnp Hu Hr Ht Hm]. destruct s as [m t p]. cbn [ns] in Hnp, Hu, Hr, Ht, Hm.
  intros start o; subst start o.
  replace (take 2 (drop 3 Notebook.resonator_sweep))
    with [SAssign "frequencies" Notebook.resonator_frequencies;
          SAssign "results" (method_call (EName "np") "array" [EList []] [])]
    by reflexivity.
  change (drop 3 Notebook.resonator_sweep)
    with [SAssign "frequencies" Notebook.resonator_frequencies;
          SAssign "results" (method_call (EName "np") "array" [EList []] []);
          Notebook.resonator_loop].
  assert (Hfreq : exec lib (SAssign "frequencies" Notebook.resonator_frequencies)
                    (State m t p)
                  = Ok tt (State (<["frequencies" := VArray fs]> m) t p)).
  { run. rewrite Hfs. reflexivity. }
  assert (Hres : exec lib (SAssign "results" (method_call (EName "np") "array" [EList []] []))
                   (State (<["frequencies" := VArray fs]> m) t p)
                 = Ok tt (State (<["results" := VArray []]>
                                   (<["frequencies" := VArray fs]> m)) t p)).
  { run. reflexivity. }
  destruct (resonator_loop_runs lib uhfqa readout trigger
              (State (<["results" := VArray []]> (<["frequencies" := VArray fs]> m)) t p)
              fs [])
    as (s' & Hrun & Hready' & Htrace & Hfreqs & Hresults).
  { constructor; simpl; lookups; reflexivity. }
  { simpl. lookups. reflexivity. }
  { simpl. lookups. reflexivity. }
  cbn [exec_block]. unfold bind.
  rewrite Hfreq; cbv beta iota. rewrite Hres; cbv beta iota.
  rewrite Hrun; cbv beta iota. unfold ret. cbn [raised final_state].
  split; [cbn [ns]; now lookups|].
  split; [reflexivity|].
  exists fs. split; [exact Hlen|]. split; [|split].
  - rewrite Hfreqs. simpl. now lookups.
  - unfold calls_since. cbn [final_state]. rewrite Htrace. simpl trace.
    now rewrite drop_app_length.
  - rewrite Hresults. simpl. now rewrite Hlen.
Qed.

Lemma qubit_results s :
  qubit_ready uhfqa readout drive channel s ->
  let start := exec_block lib (take 3 (drop 2 Notebook.qubit_sweep)) s in
  let o := exec_block lib (drop 2 Notebook.qubit_sweep) s in
  ns (final_state start) !! "results" = Some (VArray [])
  /\ raised o = None
  /\ exists fs,
       length fs = 101%nat
       /\ ns (final_state o) !! "frequencies" = Some (VArray fs)
       /\ calls_since s o
          = Call (HAttr drive "enable_iq_modulation") [] []
            :: flat_map (iteration (HAttr drive "modulation_freq")
                           uhfqa readout drive channel) fs
       /\ ns (final_state o) !! "results"
          = Some (VArray (averages lib (length (trace s) + 1) 101)).
Proof.
  intros Hready.
  destruct (linspace_length 20e6 50e6 101 ltac:(lia)) as (fs & Hfs & Hlen).
  destruct Hready as [Hnp Hu Hr Hd Hc]. destruct s as [m t p].
  cbn [ns] in Hnp, Hu, Hr, Hd, Hc. intros start o; subst start o.
  replace (take 3 (drop 2 Notebook.qubit_sweep))
    with [SAssign "frequencies" Notebook.qubit_frequencies;
          SAssign "results" (method_call (EName "np") "array" [EList []] []);
          SExpr (method_call (EName "drive") "enable_iq_modulation" [] [])]
    by reflexivity.
  change (drop 2 Notebook.qubit_sweep)
    with [SAssign "frequencies" Notebook.qubit_frequencies;
          SAssign "results" (method_call (EName "np") "array" [EList []] []);
          SExpr (method_call (EName "drive") "enable_iq_modulation" [] []);
          Notebook.qubit_loop].
  assert (Hfreq : exec lib (SAssign "frequencies" Notebook.qubit_frequencies)
                    (State m t p)
                  = Ok tt (State (<["frequencies" := VArray fs]> m) t p)).
  { run. rewrite Hfs. reflexivity. }
  assert (Hres : exec lib (SAssign "results" (method_call (EName "np") "array" [EList []] []))
                   (State (<["frequencies" := VArray fs]> m) t p)
                 = Ok tt (State (<["results" := VArray []]>
                                   (<["frequencies" := VArray fs]> m)) t p)).
  { run. reflexivity. }
  set (m' := <["results" := VArray []]> (<["frequencies" := VArray fs]> m)) in *.
  assert (Hiq : exec lib (SExpr (method_call (EName "drive") "enable_iq_modulation" [] []))
                  (State m' t p)
                = Ok tt (State m'
                           (t ++ [Call (HAttr drive "enable_iq_modulation") [] []]) p)).
  { subst m'. run. reflexivity. }
  destruct (qubit_loop_runs lib uhfqa readout drive channel
              (State m' (t ++ [Call (HAttr drive "enable_iq_modulation") [] []]) p)
              fs [])
    as (s' & Hrun & Hready' & Htrace & Hfreqs & Hresults).
  { subst m'. constructor; simpl; lookups; reflexivity. }
  { subst m'. simpl. lookups. reflexivity. }
  { subst m'. simpl. lookups. reflexivity. }
  cbn [exec_block]. unfold bind.
  rewrite Hfreq; cbv beta iota. rewrite Hres; cbv beta iota.
  rewrite Hiq; cbv beta iota.
  rewrite Hrun; cbv beta iota. unfold ret. cbn [raised final_state].
  split; [subst m'; cbn [ns]; now lookups|].
  split; [reflexivity|].
  exists fs. split; [exact Hlen|]. split; [|split].
  - rewrite Hfreqs. subst m'. simpl. now lookups.
  - unfold calls_since. cbn [final_state]. rewrite Htrace. simpl trace.
    now rewrite <- app_assoc, drop_app_length.
  - rewrite Hresults. simpl. now rewrite Hlen, length_app.
Qed.

End SweepResults.

Lemma tail_waits awg before r :
  Forall (fun c => method c <> "result") before ->
  waits_before_result awg (before ++ [Call (HAttr awg "wait_done") [] []; r]).
Proof.
  induction 1 as [|a before Ha _ IH]; intros pre c post Hcs Hres.
  - destruct pre as [|x [|y pre]].
    + injection Hcs as <- _. discriminate.
    + injection Hcs as <- _ _. now exists [].
    + injection Hcs as _ _ Hcs. destruct pre; discriminate.
  - destruct pre as [|a' pre].
    + injection Hcs as <- _. contradiction.
    + injection Hcs as <- Hcs. destruct (IH pre c post Hcs Hres) as [pre' ->].
      now exists (a :: pre').
Qed.

(** ** Names a cell can bind *)

Lemma preserves_ret {A} x (a : A) : preserves x (ret a).
Proof. intros s. reflexivity. Qed.

Lemma preserves_raise {A} x e : preserves x (@raise A e).
Proof. intros s. reflexivity. Qed.

Lemma preserves_bind {A B} x (m : M A) (k : A -> M B) :
  preserves x m -> (forall a, preserves x (k a)) -> preserves x (bind m k).
Proof.
  intros Hm Hk s. unfold bind. specialize (Hm s).
  destruct (m s) as [a s1|e s1]; cbn [final_state] in *.
  - now rewrite Hk.
  - exact Hm.
Qed.

Ltac pure_preserves :=
  repeat first [ apply preserves_ret | apply preserves_raise | case_match ].

Lemma preserves_lookup_name x y : preserves x (lookup_name y).
Proof.
  intros s. unfold lookup_name.
  destruct (ns s !! y); [|destruct (existsb _ _)]; reflexivity.
Qed.

Lemma preserves_bind_name x y v : x <> y -> preserves x (bind_name y v).
Proof. intros Hxy s. cbn. now rewrite lookup_insert_ne. Qed.

Lemma preserves_library_call lib x c : preserves x (library_call lib c).
Proof.
  intros s. unfold library_call.
  destruct (callee c); try reflexivity;
    destruct (String.eqb _ _); try reflexivity;
    destruct (is_compile c); reflexivity.
Qed.

Lemma preserves_apply lib x f vs kvs : preserves x (apply lib f vs kvs).
Proof.
  unfold apply. destruct f; try apply preserves_raise.
  - destruct kvs; [unfold call_numpy; pure_preserves|apply preserves_raise].
  - destruct kvs; [unfold call_builtin; pure_preserves|apply preserves_raise].
  - apply preserves_library_call.
Qed.

(** Evaluating an expression binds no name. *)
Lemma preserves_eval lib x e : preserves x (eval lib e).
Proof.
  induction e as [y|z|y|s|es IH|e attr IH|e k IHe IHk|f args kwargs IHf IHargs IHkw
                 |op l r IHl IHr] using expr_induction; cbn [eval].
  - apply preserves_lookup_name.
  - apply preserves_ret.
  - apply preserves_ret.
  - apply preserves_ret.
  - apply preserves_bind; [|intros; apply preserves_ret].
    induction IH as [|e es He _ IHes]; [apply preserves_ret|].
    apply preserves_bind; [exact He|intros v].
    apply preserves_bind; [exact IHes|intros; apply preserves_ret].
  - apply preserves_bind; [exact IH|intros v; unfold get_attr; pure_preserves].
  - apply preserves_bind; [exact IHe|intros v].
    apply preserves_bind; [exact IHk|intros i; unfold get_item; pure_preserves].
  - apply preserves_bind; [exact IHf|intros fv].
    apply preserves_bind.
    { induction IHargs as [|e es He _ IHes]; [apply preserves_ret|].
      apply preserves_bind; [exact He|intros v].
      apply preserves_bind; [exact IHes|intros; apply preserves_ret]. }
    intros vs. apply preserves_bind; [|intros; apply preserves_apply].
    induction IHkw as [|[k e] kes He _ IHkes]; [apply preserves_ret|].
    apply preserves_bind; [exact He|intros v].
    apply preserves_bind; [exact IHkes|intros; apply preserves_ret].
  - apply preserves_bind; [exact IHl|intros a].
    apply preserves_bind; [exact IHr|intros b; unfold eval_binop; pure_preserves].
Qed.

Lemma binds_app x l1 l2 : binds x (l1 ++ l2) = binds x l1 || binds x l2.
Proof. apply existsb_app. Qed.

Lemma binds_cons x y l : binds x (y :: l) = false -> x <> y /\ binds x l = false.
Proof.
  unfold binds. cbn [existsb]. intros H. apply orb_false_elim in H as [Hxy Hl].
  split; [|exact Hl]. intros ->. now rewrite String.eqb_refl in Hxy.
Qed.

Lemma preserves_exec_block lib x b :
  Forall (fun st => binds x (targets st) = false -> preserves x (exec lib st)) b ->
  binds x (block_targets b) = false -> preserves x (exec_block lib b).
Proof.
  induction 1 as [|st b Hst _ IH]; cbn [exec_block block_targets flat_map];
    intros Hb; [apply preserves_ret|].
  rewrite binds_app in Hb. apply orb_false_elim in Hb as [Hb1 Hb2].
  apply preserves_bind; [now apply Hst|intros; now apply IH].
Qed.

Lemma preserves_exec_loop lib x y body items :
  x <> y -> preserves x (exec_block lib body) ->
  preserves x (exec_loop lib y body items).
Proof.
  intros Hxy Hbody. induction items as [|item rest IH]; cbn [exec_loop];
    [apply preserves_ret|].
  apply preserves_bind; [now apply preserves_bind_name|intros _].
  apply preserves_bind; [exact Hbody|intros; exact IH].
Qed.

Lemma targets_block b :
  (fix all (b : list stmt) : list string :=
     match b with
     | [] => []
     | st' :: b' => targets st' ++ all b'
     end) b = block_targets b.
Proof. induction b as [|st b IH]; [reflexivity|]. cbn [block_targets flat_map]. now rewrite IH. Qed.

(** A statement leaves alone every name that is not one of its targets. *)
Lemma preserves_exec lib x st :
  binds x (targets st) = false -> preserves x (exec lib st).
Proof.
  induction st as [m a|y e|e|y iter body IH|test body orelse IHb IHo
                  |body handler IHb IHh|name params body|name body]
    using stmt_induction; intros Hx.
  - apply binds_cons in Hx as [Hxy _]. now apply preserves_bind_name.
  - apply binds_cons in Hx as [Hxy _]. cbn [exec].
    apply preserves_bind; [apply preserves_eval|intros; now apply preserves_bind_name].
  - cbn [exec]. apply preserves_bind; [apply preserves_eval|intros; apply preserves_ret].
  - cbn [targets] in Hx. rewrite targets_block in Hx.
    apply binds_cons in Hx as [Hxy Hbody].
    intros s. rewrite exec_for. revert s.
    apply preserves_bind; [apply preserves_eval|intros v].
    apply preserves_bind; [unfold iterate; pure_preserves|intros items].
    apply preserves_exec_loop; [exact Hxy|]. now apply preserves_exec_block.
  - cbn [targets] in Hx. rewrite !targets_block, binds_app in Hx.
    apply orb_false_elim in Hx as [Hx1 Hx2].
    pose proof (preserves_exec_block lib x body IHb Hx1) as Hb.
    pose proof (preserves_exec_block lib x orelse IHo Hx2) as Ho.
    change (preserves x (v <- eval lib test;; b <- truth v;;
                         if b then exec_block lib body else exec_block lib orelse)).
    apply preserves_bind; [apply preserves_eval|intros v].
    apply preserves_bind; [unfold truth; pure_preserves|intros [|]]; assumption.
  - cbn [targets] in Hx. rewrite !targets_block, binds_app in Hx.
    apply orb_false_elim in Hx as [Hx1 Hx2].
    pose proof (preserves_exec_block lib x body IHb Hx1) as Hb.
    pose proof (preserves_exec_block lib x handler IHh Hx2) as Hh.
    change (preserves x (fun s => match exec_block lib body s with
                                  | Ok _ s' => Ok tt s'
                                  | Raise _ s' => exec_block lib handler s'
                                  end)).
    intros s. specialize (Hb s).
    destruct (exec_block lib body s) as [[] s'|e s']; cbn [final_state] in *.
    + exact Hb.
    + now rewrite Hh.
  - apply preserves_raise.
  - apply preserves_raise.
Qed.

Lemma preserves_run_cell lib x c :
  binds x (block_targets c) = false -> preserves x (run_cell lib c).
Proof.
  apply preserves_exec_block, Forall_forall. intros st _. apply preserves_exec.
Qed.

(** ** The resonator sweep is never reached *)

(** Wherever [ufhqa] is unbound the resonator sweep cell raises, at its
    second line at the latest, and binds no name. *)
Lemma exec_block_cons lib st b s :
  exec_block lib (st :: b) s
  = match exec lib st s with
    | Ok _ s' => exec_block lib b s'
    | Raise e s' => Raise e s'
    end.
Proof. reflexivity. Qed.

Lemma resonator_sweep_stops lib s :
  ns s !! "ufhqa" = None ->
  raised (run_cell lib Notebook.resonator_sweep s) <> None
  /\ ns (final_state (run_cell lib Notebook.resonator_sweep s)) = ns s.
Proof.
  intros Hufhqa.
  set (first := SExpr (method_call (EName "uhfqa") "result_source"
                         [EStr "Integration"] [])).
  set (second := SExpr (method_call (EName "ufhqa") "arm" []
                          [("length", EName "repetitions"); ("averages", EInt 1)])).
  assert (Hcell : Notebook.resonator_sweep
                  = first :: second :: drop 2 Notebook.resonator_sweep)
    by reflexivity.
  assert (Hfirst : forall x, preserves x (exec lib first))
    by (intros x; now apply preserves_exec).
  unfold run_cell. rewrite Hcell, exec_block_cons.
  destruct (exec lib first s) as [[] s1|e s1] eqn:Hrun.
  - assert (Hns : ns s1 = ns s).
    { apply map_eq. intros x. specialize (Hfirst x s). now rewrite Hrun in Hfirst. }
    assert (Hsecond : exec lib second s1 = Raise (NameError "ufhqa") s1).
    { unfold second. cbn [exec eval method_call]. unfold bind, lookup_name.
      now rewrite Hns, Hufhqa. }
    rewrite exec_block_cons, Hsecond. split; [discriminate|exact Hns].
  - cbn [raised final_state]. split; [discriminate|].
    apply map_eq. intros x. specialize (Hfirst x s). now rewrite Hrun in Hfirst.
Qed.

(** No cell of the notebook binds [ufhqa] or [modulation_freq] where
    [ufhqa] is unbound. *)
Lemma cell_keeps_unbound lib c s :
  In c Notebook.cells ->
  ns s !! "ufhqa" = None -> ns s !! "modulation_freq" = None ->
  ns (final_state (run_cell lib c s)) !! "ufhqa" = None
  /\ ns (final_state (run_cell lib c s)) !! "modulation_freq" = None.
Proof.
  intros Hc Hu Hm.
  assert (Hother : binds "ufhqa" (block_targets c) = false ->
                   binds "modulation_freq" (block_targets c) = false ->
                   ns (final_state (run_cell lib c s)) !! "ufhqa" = None
                   /\ ns (final_state (run_cell lib c s)) !! "modulation_freq" = None).
  { intros H1 H2. now rewrite (preserves_run_cell lib _ c H1 s),
                              (preserves_run_cell lib _ c H2 s). }
  cbn [Notebook.cells In] in Hc.
  destruct Hc as [<-|[<-|[<-|[<-|[<-|[<-|[<-|[<-|[<-|[<-|[]]]]]]]]]]];
    try (apply Hother; reflexivity).
  destruct (resonator_sweep_stops lib s Hu) as [_ Hns]. now rewrite Hns.
Qed.

(** However the cells of the notebook are run from a fresh kernel,
    [ufhqa] and [modulation_freq] are never bound. *)
Lemma never_bound lib cs :
  of_notebook cs ->
  ns (run_cells lib cs fresh) !! "ufhqa" = None
  /\ ns (run_cells lib cs fresh) !! "modulation_freq" = None.
Proof.
  intros Hcs.
  assert (Hgen : forall s, ns s !! "ufhqa" = None -> ns s !! "modulation_freq" = None ->
                 ns (run_cells lib cs s) !! "ufhqa" = None
                 /\ ns (run_cells lib cs s) !! "modulation_freq" = None).
  { induction Hcs as [|c cs Hc _ IH]; intros s Hu Hm; [now split|].
    cbn [run_cells fold_left].
    destruct (cell_keeps_unbound lib c s Hc Hu Hm) as [Hu' Hm'].
    now apply IH. }
  apply Hgen; reflexivity.
Qed.

Lemma exec_block_app lib a b s :
  raised (exec_block lib a s) = None ->
  exec_block lib (a ++ b) s = exec_block lib b (final_state (exec_block lib a s)).
Proof.
  revert s. induction a as [|st a IH]; intros s Hnone; [reflexivity|].
  cbn [app]. rewrite !exec_block_cons. rewrite exec_block_cons in Hnone.
  destruct (exec lib st s) as [[] s'|e s']; [|discriminate].
  now apply IH.
Qed.

(** The notebook run from top to bottom: the cells after the qubit sweep
    leave [results] alone, so that it ends with the averages of the qubit
    sweep. *)
Lemma notebook_results lib :
  ns (run_cells lib Notebook.cells fresh) !! "results"
  = Some (VArray (averages lib 22 101)).
Proof.
  assert (Hcells : run_cells lib Notebook.cells fresh
    = final_state (run_cell lib Notebook.custom
        (final_state (run_cell lib Notebook.t1_measure
          (final_state (run_cell lib Notebook.t1_setup
            (final_state (run_cell lib Notebook.rabi_measure
              (final_state (run_cell lib Notebook.rabi_setup
                (final_state (run_cell lib Notebook.qubit_sweep
                  (run_cells lib [Notebook.connect; Notebook.resonator_setup;
                                  Notebook.resonator_sweep; Notebook.qubit_setup]
                     fresh)))))))))))))
    by reflexivity.
  rewrite Hcells.
  rewrite !preserves_run_cell by reflexivity.
  unfold run_cell.
  change Notebook.qubit_sweep
    with (take 2 Notebook.qubit_sweep ++ drop 2 Notebook.qubit_sweep).
  rewrite exec_block_app by (vm_compute; reflexivity).
  fold (before_qubit_points lib).
  destruct (qubit_results lib Devices.uhfqa Devices.readout Devices.awg0
              Devices.channel0 (before_qubit_points lib))
    as (_ & _ & fs & _ & _ & _ & Hresults).
  { constructor; vm_compute; reflexivity. }
  rewrite Hresults.
  assert (Hlen : length (trace (before_qubit_points lib)) = 21%nat)
    by (vm_compute; reflexivity).
  rewrite Hlen. reflexivity.
Qed.

(** C2: every sweep point does its calls in one order -- set the swept
    frequency, arm the readout, run the readout AWG, run the trigger or
    drive AWG, wait for that AWG, read the result -- and a result vector is
    read only right after [wait_done()] has returned.  For the qubit sweep
    this holds for any sweep points, from any kernel in which the objects
    of that sweep are bound; the kernel in which the notebook, run from top
    to bottom, starts the loop is one, with 101 sweep points.  For the
    resonator sweep it holds from any kernel in which the objects of that
    sweep are bound; the notebook as written never produces one, because
    however its cells are run [modulation_freq] is never bound.  The
    acquisition of the Rabi cell makes its calls in the same order. *)
Theorem sweep_order (lib : library) :
  (forall (uhfqa readout drive channel : handle) (fs rs : list float) (s : state),
     qubit_ready uhfqa readout drive channel s ->
     ns s !! "frequencies" = Some (VArray fs) ->
     ns s !! "results" = Some (VArray rs) ->
     let o := exec lib Notebook.qubit_loop s in
     raised o = None
     /\ calls_since s o
        = flat_map (iteration (HAttr drive "modulation_freq")
                      uhfqa readout drive channel) fs
     /\ waits_before_result drive (calls_since s o))
  /\ (qubit_ready Devices.uhfqa Devices.readout Devices.awg0 Devices.channel0
        (before_qubit_loop lib)
      /\ ns (before_qubit_loop lib) !! "frequencies" = Some (VArray qubit_points)
      /\ ns (before_qubit_loop lib) !! "results" = Some (VArray [])
      /\ length qubit_points = 101%nat)
  /\ (forall (uhfqa readout trigger : handle) (fs rs : list float) (s : state),
        resonator_ready uhfqa readout trigger s ->
        ns s !! "frequencies" = Some (VArray fs) ->
        ns s !! "results" = Some (VArray rs) ->
        let o := exec lib Notebook.resonator_loop s in
        raised o = None
        /\ calls_since s o
           = flat_map (iteration (HAttr (HAttr (HAttr uhfqa "nodetree") "osc") "freq")
                         uhfqa readout trigger
                         (HItem (HAttr uhfqa "channels") (KInt 0))) fs
        /\ waits_before_result trigger (calls_since s o))
  /\ (forall cs, of_notebook cs ->
        ns (run_cells lib cs fresh) !! "modulation_freq" = None)
  /\ (let configured := run_cells lib [Notebook.connect; Notebook.rabi_setup] fresh in
      let rabi := run_cell lib Notebook.rabi_measure configured in
      raised rabi = None
      /\ calls_since configured rabi = rabi_acquisition
      /\ waits_before_result Devices.awg0 (calls_since configured rabi)).
Proof.
  split; [|split; [|split; [|split]]].
  - intros uhfqa readout drive channel fs rs s Hready Hfs Hrs o. subst o.
    destruct (qubit_loop_runs lib uhfqa readout drive channel s fs rs Hready Hfs Hrs)
      as (s' & Hrun & _ & Htrace & _).
    assert (Hcalls : calls_since s (exec lib Notebook.qubit_loop s)
                     = flat_map (iteration (HAttr drive "modulation_freq")
                                   uhfqa readout drive channel) fs).
    { unfold calls_since. rewrite Hrun. cbn [final_state].
      now rewrite Htrace, drop_app_length. }
    split; [now rewrite Hrun|]. split; [exact Hcalls|].
    rewrite Hcalls. apply iteration_waits. discriminate.
  - split; [constructor; vm_compute; reflexivity|].
    repeat split; vm_compute; reflexivity.
  - intros uhfqa readout trigger fs rs s Hready Hfs Hrs o. subst o.
    destruct (resonator_loop_runs lib uhfqa readout trigger s fs rs Hready Hfs Hrs)
      as (s' & Hrun & _ & Htrace & _).
    assert (Hcalls : calls_since s (exec lib Notebook.resonator_loop s)
                     = flat_map (iteration (HAttr (HAttr (HAttr uhfqa "nodetree") "osc")
                                              "freq")
                                   uhfqa readout trigger
                                   (HItem (HAttr uhfqa "channels") (KInt 0))) fs).
    { unfold calls_since. rewrite Hrun. cbn [final_state].
      now rewrite Htrace, drop_app_length. }
    split; [now rewrite Hrun|]. split; [exact Hcalls|].
    rewrite Hcalls. apply iteration_waits. discriminate.
  - intros cs Hcs. apply never_bound, Hcs.
  - intros configured rabi.
    assert (Hcalls : calls_since configured rabi = rabi_acquisition)
      by (vm_compute; reflexivity).
    split; [vm_compute; reflexivity|]. split; [exact Hcalls|].
    rewrite Hcalls.
    apply (tail_waits Devices.awg0
             [ Call (HAttr Devices.uhfqa "result_mode") [VStr "Cyclic"] [];
               Call (HAttr Devices.uhfqa "arm") []
                 [("length", VInt 101); ("averages", VInt 256)];
               Call (HAttr Devices.readout "run") [] [];
               Call (HAttr Devices.awg0 "run") [] [] ]).
    repeat constructor; discriminate.
Qed.

(** The qubit sweep in the kernel in which the notebook starts it, and the
    resonator sweep in the kernel [before_resonator_loop], which the
    notebook does not produce. *)
Lemma sweep_order_witness :
  (qubit_ready Devices.uhfqa Devices.readout Devices.awg0 Devices.channel0
     (before_qubit_loop quiet)
   /\ ns (before_qubit_loop quiet) !! "frequencies" = Some (VArray qubit_points)
   /\ ns (before_qubit_loop quiet) !! "results" = Some (VArray [])
   /\ calls_since (before_qubit_loop quiet)
        (exec quiet Notebook.qubit_loop (before_qubit_loop quiet))
      = flat_map (iteration (HAttr Devices.awg0 "modulation_freq")
                    Devices.uhfqa Devices.readout Devices.awg0 Devices.channel0)
          qubit_points)
  /\ (resonator_ready Devices.uhfqa Devices.readout Devices.awg0
        (before_resonator_loop quiet)
      /\ ns (before_resonator_loop quiet) !! "frequencies"
         = Some (VArray resonator_points)
      /\ ns (before_resonator_loop quiet) !! "results" = Some (VArray [])
      /\ calls_since (before_resonator_loop quiet)
           (exec quiet Notebook.resonator_loop (before_resonator_loop quiet))
         = flat_map (iteration Devices.modulation_freq
                       Devices.uhfqa Devices.readout Devices.awg0 Devices.channel0)
             resonator_points).
Proof.
  assert (Hq : qubit_ready Devices.uhfqa Devices.readout Devices.awg0
                 Devices.channel0 (before_qubit_loop quiet))
    by (constructor; vm_compute; reflexivity).
  assert (Hqf : ns (before_qubit_loop quiet) !! "frequencies"
                = Some (VArray qubit_points))
    by (vm_compute; reflexivity).
  assert (Hqr : ns (before_qubit_loop quiet) !! "results" = Some (VArray []))
    by (vm_compute; reflexivity).
  assert (Hr : resonator_ready Devices.uhfqa Devices.readout Devices.awg0
                 (before_resonator_loop quiet))
    by (constructor; vm_compute; reflexivity).
  assert (Hrf : ns (before_resonator_loop quiet) !! "frequencies"
                = Some (VArray resonator_points))
    by (vm_compute; reflexivity).
  assert (Hrr : ns (before_resonator_loop quiet) !! "results" = Some (VArray []))
    by (vm_compute; reflexivity).
  split.
  - split; [exact Hq|split; [exact Hqf|split; [exact Hqr|]]].
    exact (proj1 (proj2 (proj1 (sweep_order quiet) _ _ _ _ _ _ _ Hq Hqf Hqr))).
  - split; [exact Hr|split; [exact Hrf|split; [exact Hrr|]]].
    exact (proj1 (proj2 (proj1 (proj2 (proj2 (sweep_order quiet)))
                           _ _ _ _ _ _ Hr Hrf Hrr))).
Defined.

(** C3: from the line that defines the sweep points on, [results] is
    empty when the loop starts, the loop runs to its end over the 101
    sweep points, in order, and [results] then holds 101 averages, the
    [k]-th being the average of the vector read back by the [result()]
    call of the [k]-th sweep point.  For the qubit sweep cell this holds
    from any kernel in which the objects of the sweep are bound; the
    kernel in which the notebook, run from top to bottom, reaches that
    line is one, and that run ends with the 101 averages in [results].
    For the resonator sweep cell it holds from any kernel in which the
    objects of that sweep are bound; the notebook as written never gets
    there: however its cells are run [ufhqa] and [modulation_freq] are
    never bound, and wherever [ufhqa] is unbound the cell raises and binds
    no name, [frequencies] and [results] included. *)
Theorem sweep_results (lib : library) :
  (forall (uhfqa readout drive channel : handle) (s : state),
     qubit_ready uhfqa readout drive channel s ->
     let start := exec_block lib (take 3 (drop 2 Notebook.qubit_sweep)) s in
     let o := exec_block lib (drop 2 Notebook.qubit_sweep) s in
     ns (final_state start) !! "results" = Some (VArray [])
     /\ raised o = None
     /\ exists fs,
          length fs = 101%nat
          /\ ns (final_state o) !! "frequencies" = Some (VArray fs)
          /\ calls_since s o
             = Call (HAttr drive "enable_iq_modulation") [] []
               :: flat_map (iteration (HAttr drive "modulation_freq")
                              uhfqa readout drive channel) fs
          /\ ns (final_state o) !! "results"
             = Some (VArray (averages lib (length (trace s) + 1) 101)))
  /\ (qubit_ready Devices.uhfqa Devices.readout Devices.awg0 Devices.channel0
        (before_qubit_points lib)
      /\ ns (run_cells lib Notebook.cells fresh) !! "frequencies"
         = Some (VArray qubit_points)
      /\ ns (run_cells lib Notebook.cells fresh) !! "results"
         = Some (VArray (averages lib 22 101)))
  /\ (forall (uhfqa readout trigger : handle) (s : state),
        resonator_ready uhfqa readout trigger s ->
        let start := exec_block lib (take 2 (drop 3 Notebook.resonator_sweep)) s in
        let o := exec_block lib (drop 3 Notebook.resonator_sweep) s in
        ns (final_state start) !! "results" = Some (VArray [])
        /\ raised o = None
        /\ exists fs,
             length fs = 101%nat
             /\ ns (final_state o) !! "frequencies" = Some (VArray fs)
             /\ calls_since s o
                = flat_map (iteration (HAttr (HAttr (HAttr uhfqa "nodetree") "osc") "freq")
                              uhfqa readout trigger
                              (HItem (HAttr uhfqa "channels") (KInt 0))) fs
             /\ ns (final_state o) !! "results"
                = Some (VArray (averages lib (length (trace s)) 101)))
  /\ (forall cs, of_notebook cs ->
        ns (run_cells lib cs fresh) !! "ufhqa" = None
        /\ ns (run_cells lib cs fresh) !! "modulation_freq" = None)
  /\ (forall s, ns s !! "ufhqa" = None ->
        raised (run_cell lib Notebook.resonator_sweep s) <> None
        /\ ns (final_state (run_cell lib Notebook.resonator_sweep s)) = ns s)
  /\ (forall start, length (averages lib start 101) = 101%nat).
Proof.
  split; [|split; [|split; [|split; [|split]]]].
  - intros uhfqa readout drive channel s Hready.
    exact (qubit_results lib uhfqa readout drive channel s Hready).
  - split; [constructor; vm_compute; reflexivity|].
    split; [vm_compute; reflexivity|apply notebook_results].
  - intros uhfqa readout trigger s Hready.
    exact (resonator_results lib uhfqa readout trigger s Hready).
  - intros cs Hcs. apply never_bound, Hcs.
  - intros s Hs. apply resonator_sweep_stops, Hs.
  - intros start. apply averages_length.
Qed.

(** The qubit sweep cell in the kernel in which the notebook reaches its
    sweep points, and the resonator sweep cell in the kernel
    [before_resonator_points], which the notebook does not produce. *)
Lemma sweep_results_witness :
  (qubit_ready Devices.uhfqa Devices.readout Devices.awg0 Devices.channel0
     (before_qubit_points quiet)
   /\ raised (exec_block quiet (drop 2 Notebook.qubit_sweep)
                (before_qubit_points quiet)) = None)
  /\ (resonator_ready Devices.uhfqa Devices.readout Devices.awg0
        (before_resonator_points quiet)
      /\ raised (exec_block quiet (drop 3 Notebook.resonator_sweep)
                   (before_resonator_points quiet)) = None)
  /\ (ns fresh !! "ufhqa" = None
      /\ raised (run_cell quiet Notebook.resonator_sweep fresh) <> None).
Proof.
  assert (Hq : qubit_ready Devices.uhfqa Devices.readout Devices.awg0
                 Devices.channel0 (before_qubit_points quiet))
    by (constructor; vm_compute; reflexivity).
  assert (Hr : resonator_ready Devices.uhfqa Devices.readout Devices.awg0
                 (before_resonator_points quiet))
    by (constructor; vm_compute; reflexivity).
  split; [|split].
  - split; [exact Hq|].
    exact (proj1 (proj2 (proj1 (sweep_results quiet) _ _ _ _ _ Hq))).
  - split; [exact Hr|].
    exact (proj1 (proj2 (proj1 (proj2 (proj2 (sweep_results quiet))) _ _ _ _ Hr))).
  - split; [reflexivity|].
    exact (proj1 (proj1 (proj2 (proj2 (proj2 (proj2 (sweep_results quiet)))))
                    fresh eq_refl)).
Defined.

(** ** The reported status is not observed *)

Lemma agree_refl s : agree s s.
Proof. now split. Qed.

Lemma alike_ret {A} (a : A) : alike (ret a) (ret a).
Proof. intros s1 s2 H. now split. Qed.

Lemma alike_raise {A} e : alike (@raise A e) (raise e).
Proof. intros s1 s2 H. now split. Qed.

Lemma alike_bind {A B} (m1 m2 : M A) (k1 k2 : A -> M B) :
  alike m1 m2 -> (forall a, alike (k1 a) (k2 a)) -> alike (bind m1 k1) (bind m2 k2).
Proof.
  intros Hm Hk s1 s2 H. unfold bind. specialize (Hm s1 s2 H).
  destruct (m1 s1) as [a s1'|e s1'], (m2 s2) as [b s2'|e' s2']; try contradiction.
  - destruct Hm as [<- H']. now apply Hk.
  - exact Hm.
Qed.

Lemma alike_lookup_name x : alike (lookup_name x) (lookup_name x).
Proof.
  intros s1 s2 [Hns Ht]. unfold lookup_name. rewrite <- Hns.
  destruct (ns s1 !! x); [|destruct (existsb _ _)]; now repeat split.
Qed.

Lemma alike_bind_name x v : alike (bind_name x v) (bind_name x v).
Proof. intros s1 s2 [Hns Ht]. unfold bind_name. cbn. now rewrite Hns, Ht. Qed.

Ltac pure_alike :=
  repeat first [ apply alike_ret | apply alike_raise | case_match ].

Lemma alike_get_attr v attr : alike (get_attr v attr) (get_attr v attr).
Proof. unfold get_attr. pure_alike. Qed.

Lemma alike_get_item v k : alike (get_item v k) (get_item v k).
Proof. unfold get_item. pure_alike. Qed.

Lemma alike_eval_binop op a b : alike (eval_binop op a b) (eval_binop op a b).
Proof. unfold eval_binop. pure_alike. Qed.

Lemma alike_call_builtin fn vs : alike (call_builtin fn vs) (call_builtin fn vs).
Proof. unfold call_builtin. pure_alike. Qed.

Lemma alike_call_numpy fn vs : alike (call_numpy fn vs) (call_numpy fn vs).
Proof. unfold call_numpy. pure_alike. Qed.

Lemma alike_iterate v : alike (iterate v) (iterate v).
Proof. unfold iterate. pure_alike. Qed.

Lemma alike_truth v : alike (truth v) (truth v).
Proof. unfold truth. pure_alike. Qed.

Section Unobserved.

Variables lib1 lib2 : library.
Hypothesis same_results : forall n, acquired lib1 n = acquired lib2 n.

Lemma alike_library_call c : alike (library_call lib1 c) (library_call lib2 c).
Proof.
  intros s1 s2 [Hns Ht]. unfold library_call. rewrite Hns, Ht, same_results.
  destruct (callee c); try (now repeat split);
    destruct (String.eqb _ _); try (now repeat split);
    destruct (is_compile c); now repeat split.
Qed.

Lemma alike_apply f vs kvs : alike (apply lib1 f vs kvs) (apply lib2 f vs kvs).
Proof.
  unfold apply. destruct f; try apply alike_raise.
  - destruct kvs; [apply alike_call_numpy|apply alike_raise].
  - destruct kvs; [apply alike_call_builtin|apply alike_raise].
  - apply alike_library_call.
Qed.

Lemma alike_eval e : alike (eval lib1 e) (eval lib2 e).
Proof.
  induction e as [x|z|x|s|es IH|e attr IH|e k IHe IHk|f args kwargs IHf IHargs IHkw
                 |op l r IHl IHr] using expr_induction; cbn [eval].
  - apply alike_lookup_name.
  - apply alike_ret.
  - apply alike_ret.
  - apply alike_ret.
  - apply alike_bind; [|intros; apply alike_ret].
    induction IH as [|e es He _ IHes]; [apply alike_ret|].
    apply alike_bind; [exact He|intros v].
    apply alike_bind; [exact IHes|intros; apply alike_ret].
  - apply alike_bind; [exact IH|intros; apply alike_get_attr].
  - apply alike_bind; [exact IHe|intros v].
    apply alike_bind; [exact IHk|intros; apply alike_get_item].
  - apply alike_bind; [exact IHf|intros fv].
    apply alike_bind.
    { induction IHargs as [|e es He _ IHes]; [apply alike_ret|].
      apply alike_bind; [exact He|intros v].
      apply alike_bind; [exact IHes|intros; apply alike_ret]. }
    intros vs. apply alike_bind; [|intros; apply alike_apply].
    induction IHkw as [|[k e] kes He _ IHkes]; [apply alike_ret|].
    apply alike_bind; [exact He|intros v].
    apply alike_bind; [exact IHkes|intros; apply alike_ret].
  - apply alike_bind; [exact IHl|intros a].
    apply alike_bind; [exact IHr|intros; apply alike_eval_binop].
Qed.

Lemma alike_exec_block b :
  Forall (fun st => alike (exec lib1 st) (exec lib2 st)) b ->
  alike (exec_block lib1 b) (exec_block lib2 b).
Proof.
  induction 1 as [|st b Hst _ IH]; cbn [exec_block]; [apply alike_ret|].
  apply alike_bind; [exact Hst|intros; exact IH].
Qed.

Lemma alike_exec_loop x body items :
  alike (exec_block lib1 body) (exec_block lib2 body) ->
  alike (exec_loop lib1 x body items) (exec_loop lib2 x body items).
Proof.
  intros Hbody. induction items as [|item rest IH]; cbn [exec_loop];
    [apply alike_ret|].
  apply alike_bind; [apply alike_bind_name|intros _].
  apply alike_bind; [exact Hbody|intros; exact IH].
Qed.

Lemma alike_exec st : alike (exec lib1 st) (exec lib2 st).
Proof.
  induction st as [m a|x e|e|x iter body IH|test body orelse IHb IHo
                  |body handler IHb IHh|name params body|name body]
    using stmt_induction.
  - apply alike_bind_name.
  - cbn [exec]. apply alike_bind; [apply alike_eval|intros; apply alike_bind_name].
  - cbn [exec]. apply alike_bind; [apply alike_eval|intros; apply alike_ret].
  - intros s1 s2 H. rewrite !exec_for. revert s1 s2 H.
    apply alike_bind; [apply alike_eval|intros v].
    apply alike_bind; [apply alike_iterate|intros items].
    apply alike_exec_loop, alike_exec_block, IH.
  - apply alike_exec_block in IHb, IHo.
    change (alike (v <- eval lib1 test;; b <- truth v;;
                   if b then exec_block lib1 body else exec_block lib1 orelse)
                  (v <- eval lib2 test;; b <- truth v;;
                   if b then exec_block lib2 body else exec_block lib2 orelse)).
    apply alike_bind; [apply alike_eval|intros v].
    apply alike_bind; [apply alike_truth|intros [|]]; assumption.
  - apply alike_exec_block in IHb, IHh.
    change (alike (fun s => match exec_block lib1 body s with
                            | Ok _ s' => Ok tt s'
                            | Raise _ s' => exec_block lib1 handler s'
                            end)
                  (fun s => match exec_block lib2 body s with
                            | Ok _ s' => Ok tt s'
                            | Raise _ s' => exec_block lib2 handler s'
                            end)).
    intros s1 s2 H. specialize (IHb s1 s2 H).
    destruct (exec_block lib1 body s1) as [[] s1'|e1 s1'],
             (exec_block lib2 body s2) as [[] s2'|e2 s2']; try contradiction.
    + exact IHb.
    + apply IHh, IHb.
  - apply alike_raise.
  - apply alike_raise.
Qed.

Lemma alike_run_cell c : alike (run_cell lib1 c) (run_cell lib2 c).
Proof. apply alike_exec_block, Forall_forall. intros st _. apply alike_exec. Qed.

Lemma agree_run_cells cs s1 s2 :
  agree s1 s2 -> agree (run_cells lib1 cs s1) (run_cells lib2 cs s2).
Proof.
  revert s1 s2. induction cs as [|c cs IH]; intros s1 s2 H; [exact H|].
  cbn [run_cells fold_left]. apply IH.
  pose proof (alike_run_cell c s1 s2 H) as Hc.
  destruct (run_cell lib1 c s1), (run_cell lib2 c s2); try contradiction;
    apply Hc.
Qed.

End Unobserved.

(** ** Compilation reports *)

(** C1: the notebook has no [if] and no [try] statement and its two loops
    iterate over the sweep points; whether the library reports the
    compilations as successful or failed (the instruments reading back the
    same result vectors), every cell, run from kernels that agree, raises
    or completes alike and leaves kernels that agree: same namespace, same
    calls in the same order.  So does the notebook run cell after cell.
    Only what is printed tells the runs apart: one report for each of the
    eight compilations. *)
Theorem compile_status_ignored (lib1 lib2 : library) :
  (forall n, acquired lib1 n = acquired lib2 n) ->
  forallb (fun c => negb (existsb (mentions is_branch) c)) Notebook.cells = true
  /\ flat_map iterables (concat Notebook.cells)
     = [EName "frequencies"; EName "frequencies"]
  /\ (forall c s1 s2, In c Notebook.cells -> agree s1 s2 ->
        agree_outcome (run_cell lib1 c s1) (run_cell lib2 c s2))
  /\ agree (run_cells lib1 Notebook.cells fresh) (run_cells lib2 Notebook.cells fresh)
  /\ compilations (trace (run_cells lib1 Notebook.cells fresh))
     = [7; 9; 14; 18; 631; 635; 645; 649]%nat
  /\ printed (run_cells lib1 Notebook.cells fresh)
     = map (report lib1) [7; 9; 14; 18; 631; 635; 645; 649]%nat
  /\ printed (run_cells lib2 Notebook.cells fresh)
     = map (report lib2) [7; 9; 14; 18; 631; 635; 645; 649]%nat.
Proof.
  intros Hsame.
  split; [vm_compute; reflexivity|].
  split; [vm_compute; reflexivity|].
  split; [intros c s1 s2 _; now apply alike_run_cell|].
  split; [apply agree_run_cells; [assumption|apply agree_refl]|].
  repeat split; vm_compute; reflexivity.
Qed.

(** A library that reports every compilation as failed. *)
Lemma compile_status_ignored_witness :
  (forall n, acquired quiet n = acquired (Library (fun _ => false) (fun _ => [])) n)
  /\ agree (run_cells quiet Notebook.cells fresh)
       (run_cells (Library (fun _ => false) (fun _ => [])) Notebook.cells fresh).
Proof.
  split; [reflexivity|].
  exact (proj1 (proj2 (proj2 (proj2
    (compile_status_ignored quiet (Library (fun _ => false) (fun _ => []))
       (fun n => eq_refl)))))).
Defined.

(** ** Inventory of the notebook *)

(** C7: no cell of the notebook contains a [def] or a [class] statement.
    Every callee of a call it writes is a name, or attributes and
    subscripts of a name; with every top-level statement run in order,
    each of these names is bound to an object of the toolkit or to the
    numpy module, or is one of the builtins [int] and [len], or is not
    bound at all ([ufhqa] and [awg]), and each callee whose name is bound
    evaluates, without any call, to an object of the toolkit, a numpy
    function or a builtin.  The operations so called are listed. *)
Theorem only_library_calls (lib : library) :
  let callees := flat_map stmt_callees (concat Notebook.cells) in
  let s := run_lines lib Notebook.cells fresh in
  forallb (fun c => negb (existsb (mentions is_definition) c)) Notebook.cells = true
  /\ forallb (provided lib s) callees = true
  /\ distinct [] (omap root callees)
     = [ "tk"; "mdc"; "trigger"; "readout"; "uhfqa"; "ufhqa"; "np";
         "modulation_freq"; "drive"; "int"; "channel"; "hdawg"; "len"; "awg" ]
  /\ List.filter (fun x => negb (is_some (ns s !! x)))
       (distinct [] (omap root callees))
     = ["ufhqa"; "int"; "len"; "awg"]
  /\ distinct [] (omap operation callees)
     = [ "MultiDeviceConnection"; "setup"; "connect_device"; "HDAWG"; "UHFQA";
         "set_sequence_params"; "compile"; "result_source"; "arm"; "linspace";
         "array"; "modulation_freq"; "run"; "wait_done"; "mean"; "result";
         "append"; "reset_queue"; "ones"; "int"; "queue_waveform";
         "compile_and_upload_waveforms"; "enable"; "readout_frequency";
         "source"; "enable_iq_modulation"; "len"; "result_mode" ].
Proof.
  repeat split; vm_compute; reflexivity.
Qed.

(** ** Configuration before compilation *)

Lemma key_eqb_eq a b : key_eqb a b = true -> a = b.
Proof.
  destruct a, b; cbn; try discriminate.
  - intros H. apply Z.eqb_eq in H. now subst.
  - intros H. apply String.eqb_eq in H. now subst.
Qed.

Lemma handle_eqb_eq a b : handle_eqb a b = true -> a = b.
Proof.
  revert b. induction a as [m x|n|h IH x|h IH k]; intros [m' x'|n'|h' x'|h' k'];
    cbn; try discriminate; intros H.
  - apply andb_prop in H as [Hm Hx].
    apply String.eqb_eq in Hm, Hx. now subst.
  - apply Nat.eqb_eq in H. now subst.
  - apply andb_prop in H as [Hh Hx].
    apply String.eqb_eq in Hx. apply IH in Hh. now subst.
  - apply andb_prop in H as [Hh Hk].
    apply key_eqb_eq in Hk. apply IH in Hh. now subst.
Qed.

Lemma configured_first_sound earlier later :
  configured_first earlier later = true ->
  forall pre k post, later = pre ++ k :: post -> is_compile k = true ->
    existsb (configures k) (earlier ++ pre) = true.
Proof.
  revert earlier. induction later as [|c later IH]; intros earlier Hall pre k post Hcut Hk.
  - destruct pre; discriminate.
  - cbn [configured_first] in Hall. apply andb_prop in Hall as [Hc Hrest].
    destruct pre as [|c' pre].
    + injection Hcut as <- _. rewrite Hk in Hc. now rewrite app_nil_r.
    + injection Hcut as <- Hcut.
      specialize (IH _ Hrest pre k post Hcut Hk).
      now rewrite <- app_assoc in IH.
Qed.

Lemma configures_spec k p :
  configures k p = true ->
  method p = "set_sequence_params" /\ receiver p = receiver k
  /\ is_Some (kwarg "sequence_type" p)
  /\ is_Some (kwarg "period" p) /\ is_Some (kwarg "repetitions" p).
Proof.
  unfold configures. intros H.
  repeat (apply andb_prop in H as [H ?]).
  apply String.eqb_eq in H.
  repeat split; auto using handle_eqb_eq;
    match goal with
    | Hk : is_some (kwarg ?x p) = true |- is_Some (kwarg ?x p) =>
        destruct (kwarg x p); [eauto|discriminate]
    end.
Qed.

(** C6: in every configuration cell, run once the devices are connected,
    every compilation ([compile()] or [compile_and_upload_waveforms()]) of
    an AWG core comes after a [set_sequence_params()] call of that cell on
    the same AWG core, which selects a sequence type, a period and a
    number of repetitions; and the cell runs to its end. *)
Theorem configured_before_compiled (lib : library) :
  Forall (fun c =>
    let s := after_connect lib in
    let o := run_cell lib c s in
    raised o = None
    /\ forall pre k post,
         calls_since s o = pre ++ k :: post -> is_compile k = true ->
         exists p, In p pre
           /\ method p = "set_sequence_params" /\ receiver p = receiver k
           /\ is_Some (kwarg "sequence_type" p)
           /\ is_Some (kwarg "period" p) /\ is_Some (kwarg "repetitions" p))
    setups.
Proof.
  assert (Hsound : forall c,
    configured_first [] (calls_since (after_connect lib)
                           (run_cell lib c (after_connect lib))) = true ->
    forall pre k post,
      calls_since (after_connect lib) (run_cell lib c (after_connect lib))
      = pre ++ k :: post -> is_compile k = true ->
      exists p, In p pre
        /\ method p = "set_sequence_params" /\ receiver p = receiver k
        /\ is_Some (kwarg "sequence_type" p)
        /\ is_Some (kwarg "period" p) /\ is_Some (kwarg "repetitions" p)).
  { intros c Hall pre k post Hcut Hk.
    pose proof (configured_first_sound [] _ Hall pre k post Hcut Hk) as Hex.
    apply existsb_exists in Hex as (p & Hin & Hp).
    exists p. split; [exact Hin|]. now apply configures_spec. }
  unfold setups.
  repeat (apply List.Forall_cons; [split; [vm_compute; reflexivity|apply Hsound; vm_compute; reflexivity]|]).
  apply List.Forall_nil.
Qed.

Lemma configured_before_compiled_witness :
  exists p,
    In p [Call (HAttr Devices.awg0 "set_sequence_params") []
            [ ("sequence_type", VStr "Trigger");
              ("period", VFloat 10e-6);
              ("repetitions", VFloat 1e3) ]]
    /\ method p = "set_sequence_params"
    /\ receiver p = Devices.awg0.
Proof.
  pose proof (configured_before_compiled quiet) as H.
  apply Forall_inv in H. destruct H as [_ H].
  destruct (H [Call (HAttr Devices.awg0 "set_sequence_params") []
                 [ ("sequence_type", VStr "Trigger");
                   ("period", VFloat 10e-6);
                   ("repetitions", VFloat 1e3) ]]
              (Call (HAttr Devices.awg0 "compile") [] [])
              [Call (HAttr Devices.readout "set_sequence_params") []
                 [ ("sequence_type", VStr "Pulsed Spectroscopy");
                   ("period", VFloat 10e-6);
                   ("repetitions", VFloat 1e3);
                   ("trigger_mode", VStr "External Trigger") ];
               Call (HAttr Devices.readout "compile") [] []])
    as (p & Hin & Hm & Hr & _).
  - vm_compute. reflexivity.
  - reflexivity.
  - exists p. auto.
Defined.

(** ** The resonator sweep cell *)

(** C8, as the cell behaves: run after the two cells before it, whatever
    the instruments answer, the resonator sweep cell raises
    [NameError: ufhqa] at its second statement.  By then it has made one
    call, [uhfqa.result_source("Integration")]; it makes no other call and
    binds no name, so no sweep point is ever set up or run. *)
Theorem resonator_sweep_raises (lib : library) :
  let s := before_resonator_sweep lib in
  let o := run_cell lib Notebook.resonator_sweep s in
  ns s !! "ufhqa" = None
  /\ raised o = Some (NameError "ufhqa")
  /\ calls_since s o
     = [Call (HAttr Devices.uhfqa "result_source") [VStr "Integration"] []]
  /\ ns (final_state o) = ns s
  /\ ns (final_state o) !! "frequencies" = None
  /\ ns (final_state o) !! "results" = None.
Proof.
  repeat (split; [vm_compute; reflexivity|]). vm_compute; reflexivity.
Qed.

(** C8, as stated, fails: when the cell raises, a call to the instrument
    has already been made. *)
Lemma resonator_sweep_calls_first :
  let s := before_resonator_sweep quiet in
  let o := run_cell quiet Notebook.resonator_sweep s in
  ~ (raised o = Some (NameError "ufhqa") /\ calls_since s o = []).
Proof. intros s o [_ H]. vm_compute in H. discriminate. Qed.

(** ** Readout configurations *)

(** C9: running the notebook configures the Readout sequence three times;
    each of the three [set_sequence_params] calls passes the keyword
    [pulse_lenth] with the value [2e-6] and none passes [pulse_length]. *)
Theorem readout_pulse_keyword (lib : library) :
  let configs := List.filter is_readout_config (trace (run_cells lib Notebook.cells fresh)) in
  length configs = 3%nat
  /\ Forall (fun c =>
       In "pulse_lenth" (kwarg_names c)
       /\ ~ In "pulse_length" (kwarg_names c)
       /\ kwarg "pulse_lenth" c = Some (VFloat 2e-6)
       /\ kwarg "pulse_length" c = None) configs.
Proof.
  intros configs. subst configs.
  match goal with
  | |- context [List.filter ?f ?l] =>
      let t := eval vm_compute in (List.filter f l) in
      replace (List.filter f l) with t by (vm_compute; reflexivity)
  end.
  split; [reflexivity|].
  repeat constructor; cbn; intuition discriminate.
Qed.

(** ** Sweep arrays and the drive waveform *)

(** C4: the sweep arrays of the notebook, evaluated where numpy has been
    imported: both [frequencies] arrays and [rabi_amplitudes] have 101
    elements, [delay_times] has 40. *)
Theorem sweep_array_lengths (lib : library) :
  let s := after_connect lib in
  (exists xs, eval lib Notebook.resonator_frequencies s = Ok (VArray xs) s
              /\ length xs = 101%nat)
  /\ (exists xs, eval lib Notebook.qubit_frequencies s = Ok (VArray xs) s
                 /\ length xs = 101%nat)
  /\ (exists xs, eval lib Notebook.rabi_amplitudes s = Ok (VArray xs) s
                 /\ length xs = 101%nat)
  /\ (exists xs, eval lib Notebook.delay_times s = Ok (VArray xs) s
                 /\ length xs = 40%nat).
Proof.
  repeat split; eexists; (split; [vm_compute; reflexivity|reflexivity]).
Qed.

(** C10: [2.4e9 * 5e-6] is the float just above 12000, [int] truncates it
    to exactly 12000, and [wave] is an array of 12000 samples, each [1.0];
    the qubit configuration cell binds [wave] to it and queues this one
    array for both output channels. *)
Theorem drive_waveform (lib : library) :
  let s := after_connect lib in
  let o := run_cell lib Notebook.qubit_setup s in
  eval lib (EBinOp Mult (EFloat 2.4e9) (EFloat 5e-6)) s
  = Ok (VFloat 12000.000000000002) s
  /\ eval lib Notebook.wave_length s = Ok (VInt 12000) s
  /\ eval lib Notebook.wave s = Ok (VArray (repeat 1%float 12000)) s
  /\ length (repeat 1%float 12000) = 12000%nat
  /\ ns (final_state o) !! "wave" = Some (VArray (repeat 1%float 12000))
  /\ calls_since s o !! 2%nat
     = Some (Call (HAttr Devices.awg0 "queue_waveform")
               [VArray (repeat 1%float 12000); VArray (repeat 1%float 12000)] []).
Proof.
  repeat split; vm_compute; reflexivity.
Qed.

(** ** Placeholders of a custom sequence program *)

Module CustomFacts.
Import Custom.

Lemma append_cons x (a b : string) : (String x a ++ b)%string = String x (a ++ b).
Proof. reflexivity. Qed.

Lemma append_nil (a : string) : ("" ++ a)%string = a.
Proof. reflexivity. Qed.

Lemma append_nil_r (a : string) : (a ++ "")%string = a.
Proof. induction a as [|x a IH]; [reflexivity|]. now rewrite append_cons, IH. Qed.

Lemma append_assoc (a b c : string) : ((a ++ b) ++ c)%string = (a ++ b ++ c)%string.
Proof.
  induction a as [|x a IH]; [reflexivity|]. now rewrite !append_cons, IH.
Qed.

Ltac push := rewrite ?append_cons, ?append_nil.

Lemma scan_skip params s rest :
  scan params (String.length s) (s ++ rest) = scan params 0 rest.
Proof.
  induction s as [|c s IH]; push; cbn [String.length].
  - destruct rest; reflexivity.
  - cbn [scan]. exact IH.
Qed.

Lemma placeholder_at_text c rest :
  Ascii.eqb c dollar = false -> placeholder_at (String c rest) = None.
Proof.
  intros Hc. unfold placeholder_at. cbn [strip_prefix].
  rewrite Ascii.eqb_sym. fold dollar. now rewrite Hc.
Qed.

Lemma scan_text params s rest :
  has_dollar s = false -> scan params 0 (s ++ rest) = (s ++ scan params 0 rest)%string.
Proof.
  induction s as [|c s IH]; cbn [has_dollar]; intros Hs; [reflexivity|].
  apply orb_false_elim in Hs as [Hc Hs]. push.
  cbn [scan]. rewrite (placeholder_at_text _ _ Hc). now rewrite IH.
Qed.

Lemma span_digits_decimal d rest :
  span_digits (NilEmpty.string_of_uint d ++ String dollar rest)
  = (NilEmpty.string_of_uint d, String dollar rest).
Proof.
  induction d as [|d IH|d IH|d IH|d IH|d IH|d IH|d IH|d IH|d IH|d IH];
    [reflexivity|..];
    cbn [NilEmpty.string_of_uint]; push; cbn [span_digits];
    change (is_digit _) with true; cbv iota; now rewrite IH.
Qed.

Lemma placeholder_at_placeholder n rest :
  placeholder_at (placeholder n ++ rest)
  = Some (n, String.length (placeholder n)).
Proof.
  unfold placeholder_at, placeholder.
  rewrite append_assoc. push. cbn [strip_prefix].
  change (Ascii.eqb ?a ?a) with true. cbv iota.
  rewrite append_assoc. push. fold dollar.
  unfold decimal at 1. rewrite span_digits_decimal.
  rewrite NilEmpty.usu, Unsigned.of_to.
  change (Ascii.eqb dollar dollar) with true.
  fold (decimal n). now rewrite String.eqb_refl.
Qed.

Lemma scan_placeholder params n p rest :
  params !! n = Some p ->
  scan params 0 (placeholder n ++ rest) = (str p ++ scan params 0 rest)%string.
Proof.
  intros Hp.
  assert (Hhead : exists tail, placeholder n = String dollar tail)
    by (now eexists).
  destruct Hhead as [tail Htail].
  pose proof (placeholder_at_placeholder n rest) as Hat.
  rewrite Htail in *. rewrite append_cons in *. cbn [scan String.length] in *.
  rewrite Hat, Hp. cbn [Nat.sub]. rewrite Nat.sub_0_r. f_equal. apply scan_skip.
Qed.

End CustomFacts.

(** C5: in a sequence program whose text between placeholders has no [$]
    and whose placeholders all have a parameter, every placeholder
    [$paramN$] is replaced by the [N]-th element of [custom_params], and
    nothing else changes; a program that is just the placeholder of an
    index in the list becomes that parameter; with [custom_params] equal to
    [1000, 99, 1], [$param0$] becomes [1000], [$param1$] becomes [99] and
    [$param2$] becomes [1]. *)
Theorem placeholders_substituted (custom_params : list Z)
    (segs : list Custom.segment) :
  Forall (Custom.well_cut custom_params) segs ->
  Custom.substitute custom_params (Custom.written segs)
  = Custom.filled custom_params segs
  /\ (forall n p, custom_params !! n = Some p ->
        Custom.substitute custom_params (Custom.placeholder n) = Custom.str p)
  /\ map Custom.placeholder [0; 1; 2]%nat = ["$param0$"; "$param1$"; "$param2$"]
  /\ map (Custom.substitute [1000; 99; 1]) ["$param0$"; "$param1$"; "$param2$"]
     = ["1000"; "99"; "1"].
Proof.
  intros Hcut. split; [|split; [|split; reflexivity]].
  - unfold Custom.substitute.
    induction Hcut as [|[s|n] segs Hseg _ IH]; cbn [Custom.written Custom.filled].
    + reflexivity.
    + rewrite CustomFacts.scan_text by exact Hseg. now rewrite IH.
    + cbn [Custom.well_cut] in Hseg.
      destruct (lookup_lt_is_Some_2 custom_params n Hseg) as [p Hp].
      rewrite Hp, (CustomFacts.scan_placeholder _ _ _ _ Hp). now rewrite IH.
  - intros n p Hp. unfold Custom.substitute.
    pose proof (CustomFacts.scan_placeholder custom_params n p "" Hp) as H.
    rewrite CustomFacts.append_nil_r in H. rewrite H. cbn [Custom.scan].
    apply CustomFacts.append_nil_r.
Qed.

Lemma placeholders_substituted_witness :
  Forall (Custom.well_cut [1000; 99; 1]) sample_program
  /\ Custom.substitute [1000; 99; 1]
       "repeat ($param0$) { playWave(ones($param1$)); wait($param2$); }"
     = "repeat (1000) { playWave(ones(99)); wait(1); }".
Proof.
  assert (Hcut : Forall (Custom.well_cut [1000; 99; 1]) sample_program)
    by (repeat constructor).
  split; [exact Hcut|].
  exact (proj1 (placeholders_substituted [1000; 99; 1] sample_program Hcut)).
Defined.

(** * Further properties of the cells *)

(** ** Calls are only ever added *)

Lemma appends_ret {A} (a : A) : appends (ret a).
Proof. intros s. exists []. cbn. now rewrite app_nil_r. Qed.

Lemma appends_raise {A} e : appends (@raise A e).
Proof. intros s. exists []. cbn. now rewrite app_nil_r. Qed.

Lemma appends_bind {A B} (m : M A) (k : A -> M B) :
  appends m -> (forall a, appends (k a)) -> appends (bind m k).
Proof.
  intros Hm Hk s. unfold bind. destruct (Hm s) as [more Hmore].
  destruct (m s) as [a s1|e s1]; cbn [final_state] in *.
  - destruct (Hk a s1) as [more' Hmore']. exists (more ++ more').
    now rewrite Hmore', Hmore, app_assoc.
  - now exists more.
Qed.

Ltac pure_appends :=
  repeat first [ apply appends_ret | apply appends_raise | case_match ].

Lemma appends_lookup_name x : appends (lookup_name x).
Proof.
  intros s. exists []. unfold lookup_name.
  destruct (ns s !! x); [|destruct (existsb _ _)]; cbn; now rewrite app_nil_r.
Qed.

Lemma appends_bind_name x v : appends (bind_name x v).
Proof. intros s. exists []. cbn. now rewrite app_nil_r. Qed.

Lemma appends_library_call lib c : appends (library_call lib c).
Proof.
  intros s. exists [c]. unfold library_call.
  destruct (callee c); try reflexivity;
    destruct (String.eqb _ _); try reflexivity;
    destruct (is_compile c); reflexivity.
Qed.

Lemma appends_apply lib f vs kvs : appends (apply lib f vs kvs).
Proof.
  unfold apply. destruct f; try apply appends_raise.
  - destruct kvs; [unfold call_numpy; pure_appends|apply appends_raise].
  - destruct kvs; [unfold call_builtin; pure_appends|apply appends_raise].
  - apply appends_library_call.
Qed.

Lemma appends_eval lib e : appends (eval lib e).
Proof.
  induction e as [x|z|x|s|es IH|e attr IH|e k IHe IHk|f args kwargs IHf IHargs IHkw
                 |op l r IHl IHr] using expr_induction; cbn [eval].
  - apply appends_lookup_name.
  - apply appends_ret.
  - apply appends_ret.
  - apply appends_ret.
  - apply appends_bind; [|intros; apply appends_ret].
    induction IH as [|e es He _ IHes]; [apply appends_ret|].
    apply appends_bind; [exact He|intros v].
    apply appends_bind; [exact IHes|intros; apply appends_ret].
  - apply appends_bind; [exact IH|intros v; unfold get_attr; pure_appends].
  - apply appends_bind; [exact IHe|intros v].
    apply appends_bind; [exact IHk|intros i; unfold get_item; pure_appends].
  - apply appends_bind; [exact IHf|intros fv].
    apply appends_bind.
    { induction IHargs as [|e es He _ IHes]; [apply appends_ret|].
      apply appends_bind; [exact He|intros v].
      apply appends_bind; [exact IHes|intros; apply appends_ret]. }
    intros vs. apply appends_bind; [|intros; apply appends_apply].
    induction IHkw as [|[k e] kes He _ IHkes]; [apply appends_ret|].
    apply appends_bind; [exact He|intros v].
    apply appends_bind; [exact IHkes|intros; apply appends_ret].
  - apply appends_bind; [exact IHl|intros a].
    apply appends_bind; [exact IHr|intros b; unfold eval_binop; pure_appends].
Qed.

Lemma appends_exec_block lib b :
  Forall (fun st => appends (exec lib st)) b -> appends (exec_block lib b).
Proof.
  induction 1 as [|st b Hst _ IH]; cbn [exec_block]; [apply appends_ret|].
  apply appends_bind; [exact Hst|intros; exact IH].
Qed.

Lemma appends_exec_loop lib x body items :
  appends (exec_block lib body) -> appends (exec_loop lib x body items).
Proof.
  intros Hbody. induction items as [|item rest IH]; cbn [exec_loop];
    [apply appends_ret|].
  apply appends_bind; [apply appends_bind_name|intros _].
  apply appends_bind; [exact Hbody|intros; exact IH].
Qed.

Lemma appends_exec lib st : appends (exec lib st).
Proof.
  induction st as [m a|x e|e|x iter body IH|test body orelse IHb IHo
                  |body handler IHb IHh|name params body|name body]
    using stmt_induction.
  - apply appends_bind_name.
  - cbn [exec]. apply appends_bind; [apply appends_eval|intros; apply appends_bind_name].
  - cbn [exec]. apply appends_bind; [apply appends_eval|intros; apply appends_ret].
  - intros s. rewrite exec_for. revert s.
    apply appends_bind; [apply appends_eval|intros v].
    apply appends_bind; [unfold iterate; pure_appends|intros items].
    apply appends_exec_loop, appends_exec_block, IH.
  - apply appends_exec_block in IHb, IHo.
    change (appends (v <- eval lib test;; b <- truth v;;
                     if b then exec_block lib body else exec_block lib orelse)).
    apply appends_bind; [apply appends_eval|intros v].
    apply appends_bind; [unfold truth; pure_appends|intros [|]]; assumption.
  - apply appends_exec_block in IHb, IHh.
    change (appends (fun s => match exec_block lib body s with
                              | Ok _ s' => Ok tt s'
                              | Raise _ s' => exec_block lib handler s'
                              end)).
    intros s. destruct (IHb s) as [more Hmore].
    destruct (exec_block lib body s) as [[] s'|e s']; cbn [final_state] in *.
    + now exists more.
    + destruct (IHh s') as [more' Hmore']. exists (more ++ more').
      now rewrite Hmore', Hmore, app_assoc.
  - apply appends_raise.
  - apply appends_raise.
Qed.

Lemma appends_run_cell lib c : appends (run_cell lib c).
Proof. apply appends_exec_block, Forall_forall. intros st _. apply appends_exec. Qed.

(** The calls a cell makes, put back after the calls made before it. *)
Lemma trace_calls_since lib c s :
  trace (final_state (run_cell lib c s)) = trace s ++ calls_since s (run_cell lib c s).
Proof.
  destruct (appends_run_cell lib c s) as [more Hmore]. unfold calls_since.
  now rewrite Hmore, drop_app_length.
Qed.

(** ** The cells, from any connected kernel *)

Ltac lookups_all :=
  repeat first
    [ rewrite lookup_insert_eq
    | rewrite lookup_insert_ne by discriminate
    | match goal with H : ?m !! ?x = Some _ |- context [?m !! ?x] => rewrite H end
    | match goal with H : ?m !! ?x = None |- context [?m !! ?x] => rewrite H end ].

Ltac run_all :=
  repeat progress
    (unfold run_cell, bind, ret, raise, bind_name, lookup_name;
     lookups_all;
     cbn -[lookup insert Numpy.mean Numpy.append Numpy.linspace Numpy.ones
           Py64.trunc PrimFloat.mul Expected.drive_wave]).

Lemma wave_length_value : Py64.trunc (2.4e9 * 5e-6) = Some 12000.
Proof. vm_compute. reflexivity. Qed.

Lemma wave_value : Numpy.ones 12000 = Some Expected.drive_wave.
Proof. vm_compute. reflexivity. Qed.

Lemma resonator_setup_runs lib hdawg uhfqa s :
  connected hdawg uhfqa s ->
  exists s',
    run_cell lib Notebook.resonator_setup s = Ok tt s'
    /\ trace s' = trace s ++ Expected.resonator_setup hdawg uhfqa
    /\ connected hdawg uhfqa s'.
Proof.
  intros [Hnp Hh Hu Hint Hlen]. destruct s as [m t p]. cbn [ns] in *.
  unfold Notebook.resonator_setup. run_all.
  eexists. split; [reflexivity|]. split.
  - cbn [trace]. now rewrite <- !app_assoc.
  - constructor; cbn [ns]; now lookups_all.
Qed.

Lemma qubit_setup_runs lib hdawg uhfqa s :
  connected hdawg uhfqa s ->
  exists s',
    run_cell lib Notebook.qubit_setup s = Ok tt s'
    /\ trace s' = trace s ++ Expected.qubit_setup hdawg uhfqa
    /\ connected hdawg uhfqa s'.
Proof.
  intros [Hnp Hh Hu Hint Hlen]. destruct s as [m t p]. cbn [ns] in *.
  unfold Notebook.qubit_setup, Notebook.wave, Notebook.wave_length. run_all.
  rewrite wave_length_value. run_all. rewrite wave_value. run_all.
  eexists. split; [reflexivity|]. split.
  - cbn [trace]. now rewrite <- !app_assoc.
  - constructor; cbn [ns]; now lookups_all.
Qed.

Lemma rabi_amplitudes_value :
  Numpy.linspace (Py64.of_Z 0) 1.0 101 = Some Expected.rabi_amplitudes
  /\ length Expected.rabi_amplitudes = 101%nat.
Proof. split; vm_compute; reflexivity. Qed.

Lemma delay_times_value :
  Numpy.linspace 0.5e-6 20e-6 40 = Some Expected.delay_times
  /\ length Expected.delay_times = 40%nat.
Proof. split; vm_compute; reflexivity. Qed.

Ltac run_seq :=
  repeat progress
    (unfold run_cell, bind, ret, raise, bind_name, lookup_name;
     lookups_all;
     cbn -[lookup insert Numpy.mean Numpy.append Numpy.linspace Numpy.ones
           Py64.trunc Py64.of_Z PrimFloat.mul Expected.drive_wave
           Expected.rabi_amplitudes Expected.delay_times length Z.of_nat Z.mul]).

Lemma rabi_setup_runs lib hdawg uhfqa s :
  connected hdawg uhfqa s ->
  exists s',
    run_cell lib Notebook.rabi_setup s = Ok tt s'
    /\ trace s' = trace s ++ Expected.rabi_setup hdawg uhfqa
    /\ connected hdawg uhfqa s'
    /\ sweep_configured hdawg uhfqa "rabi_amplitudes" Expected.rabi_amplitudes s'.
Proof.
  intros [Hnp Hh Hu Hint Hlen]. destruct s as [m t p]. cbn [ns] in *.
  destruct rabi_amplitudes_value as [Hpoints Hcount].
  unfold Notebook.rabi_setup, Notebook.rabi_amplitudes. run_seq.
  rewrite Hpoints. run_seq. rewrite Hcount.
  eexists. split; [reflexivity|]. split; [|split].
  - cbn [trace]. now rewrite <- !app_assoc.
  - constructor; cbn [ns]; now lookups_all.
  - constructor; cbn [ns]; now lookups_all.
Qed.

Lemma t1_setup_runs lib hdawg uhfqa s :
  connected hdawg uhfqa s ->
  exists s',
    run_cell lib Notebook.t1_setup s = Ok tt s'
    /\ trace s' = trace s ++ Expected.t1_setup hdawg uhfqa
    /\ connected hdawg uhfqa s'
    /\ sweep_configured hdawg uhfqa "delay_times" Expected.delay_times s'.
Proof.
  intros [Hnp Hh Hu Hint Hlen]. destruct s as [m t p]. cbn [ns] in *.
  destruct delay_times_value as [Hpoints Hcount].
  unfold Notebook.t1_setup, Notebook.delay_times. run_seq.
  rewrite Hpoints. run_seq. rewrite Hcount.
  eexists. split; [reflexivity|]. split; [|split].
  - cbn [trace]. now rewrite <- !app_assoc.
  - constructor; cbn [ns]; now lookups_all.
  - constructor; cbn [ns]; now lookups_all.
Qed.

Lemma rabi_measure_runs lib hdawg uhfqa points s :
  sweep_configured hdawg uhfqa "rabi_amplitudes" points s ->
  exists s',
    run_cell lib Notebook.rabi_measure s = Ok tt s'
    /\ trace s'
       = trace s ++ Call (HAttr uhfqa "result_mode") [VStr "Cyclic"] []
                    :: Expected.acquisition hdawg uhfqa (Z.of_nat (length points))
    /\ ns s' !! "result" = Some (VArray (acquired lib (length (trace s) + 5))).
Proof.
  intros [Hu Hr Hd Hc Hpoints Hav Hlen]. destruct s as [m t p]. cbn [ns] in *.
  unfold Notebook.rabi_measure. run_seq.
  eexists. split; [reflexivity|]. split.
  - cbn [trace]. now rewrite <- !app_assoc.
  - cbn [ns trace]. lookups_all. rewrite !length_app. cbn [length].
    now rewrite <- !Nat.add_assoc.
Qed.

Lemma t1_measure_runs lib hdawg uhfqa points s :
  sweep_configured hdawg uhfqa "delay_times" points s ->
  exists s',
    run_cell lib Notebook.t1_measure s = Ok tt s'
    /\ trace s'
       = trace s ++ Expected.acquisition hdawg uhfqa (Z.of_nat (length points))
    /\ ns s' !! "result" = Some (VArray (acquired lib (length (trace s) + 4))).
Proof.
  intros [Hu Hr Hd Hc Hpoints Hav Hlen]. destruct s as [m t p]. cbn [ns] in *.
  unfold Notebook.t1_measure. run_seq.
  eexists. split; [reflexivity|]. split.
  - cbn [trace]. now rewrite <- !app_assoc.
  - cbn [ns trace]. lookups_all. rewrite !length_app. cbn [length].
    now rewrite <- !Nat.add_assoc.
Qed.

Lemma setup_runs lib hdawg uhfqa k s :
  connected hdawg uhfqa s ->
  exists s',
    run_cell lib (setup_cell k) s = Ok tt s'
    /\ trace s' = trace s ++ setup_calls hdawg uhfqa k
    /\ connected hdawg uhfqa s'.
Proof.
  intros Hs. destruct k; cbn [setup_cell setup_calls].
  - apply resonator_setup_runs, Hs.
  - apply qubit_setup_runs, Hs.
  - destruct (rabi_setup_runs lib hdawg uhfqa s Hs) as (s' & ? & ? & ? & _). eauto.
  - destruct (t1_setup_runs lib hdawg uhfqa s Hs) as (s' & ? & ? & ? & _). eauto.
Qed.

(** X1: the first cell needs nothing from the kernel.  From any kernel in
    which [int] and [len] are not hidden, it completes; it makes six
    calls -- the connection, its setup, and for each device its
    construction and its connection, the object passed to
    [connect_device] being the one just constructed --; and it leaves the
    kernel connected: [hdawg] and [uhfqa] are the entries of the
    connection's [hdawgs] and [uhfqas] under the very names the devices
    were constructed with. *)
Theorem connect_cell (lib : library) (s : state) :
  ns s !! "int" = None ->
  ns s !! "len" = None ->
  let n := length (trace s) in
  let o := run_cell lib Notebook.connect s in
  raised o = None
  /\ calls_since s o = Expected.connect n
  /\ printed (final_state o) = printed s
  /\ connected (HItem (HAttr (HResult n) "hdawgs") (KStr "hdawg 1"))
       (HItem (HAttr (HResult n) "uhfqas") (KStr "uhfqa 1")) (final_state o)
  /\ ns (final_state o) !! "mdc" = Some (VObj (HResult n)).
Proof.
  intros Hint Hlen n o. subst n o. destruct s as [m t p]. cbn [ns trace] in *.
  unfold Notebook.connect, calls_since. run_seq.
  split; [reflexivity|]. split; [|split; [reflexivity|split]].
  - rewrite !length_app. cbn [length]. rewrite <- !Nat.add_assoc. cbn [Nat.add].
    rewrite <- !app_assoc. cbn [app]. now rewrite drop_app_length.
  - constructor; cbn [ns]; now lookups_all.
  - now lookups_all.
Qed.

Lemma connect_cell_witness :
  ns fresh !! "int" = None /\ ns fresh !! "len" = None
  /\ calls_since fresh (run_cell quiet Notebook.connect fresh) = Expected.connect 0.
Proof.
  split; [reflexivity|split; [reflexivity|]].
  exact (proj1 (proj2 (connect_cell quiet fresh eq_refl eq_refl))).
Defined.

(** X2: the configuration cells depend on the connection only.  From a
    connected kernel, any of them, run in any order and any number of
    times, all complete; each makes exactly its own calls, whatever cells
    were run before and whatever the instruments answered; and the kernel
    stays connected. *)
Theorem setups_compose (lib : library) (hdawg uhfqa : handle)
    (ks : list setup) (s : state) :
  connected hdawg uhfqa s ->
  let s' := run_cells lib (map setup_cell ks) s in
  trace s' = trace s ++ flat_map (setup_calls hdawg uhfqa) ks
  /\ connected hdawg uhfqa s'
  /\ forall k, raised (run_cell lib (setup_cell k) s') = None.
Proof.
  revert s. induction ks as [|k ks IH]; intros s Hs; cbn [map run_cells fold_left].
  - cbn [flat_map]. rewrite app_nil_r. split; [reflexivity|split; [exact Hs|]].
    intros k. destruct (setup_runs lib hdawg uhfqa k s Hs) as (s' & -> & _).
    reflexivity.
  - destruct (setup_runs lib hdawg uhfqa k s Hs) as (s1 & Hrun & Htrace & Hs1).
    rewrite Hrun. cbn [final_state]. destruct (IH s1 Hs1) as (Htr & Hc & Hall).
    split; [|split; [exact Hc|exact Hall]].
    unfold run_cells in Htr. rewrite Htr, Htrace. cbn [flat_map].
    now rewrite app_assoc.
Qed.

Lemma setups_compose_witness :
  connected Devices.hdawg Devices.uhfqa (after_connect quiet)
  /\ trace (run_cells quiet
              [Notebook.t1_setup; Notebook.resonator_setup; Notebook.t1_setup]
              (after_connect quiet))
     = trace (after_connect quiet)
       ++ Expected.t1_setup Devices.hdawg Devices.uhfqa
       ++ Expected.resonator_setup Devices.hdawg Devices.uhfqa
       ++ Expected.t1_setup Devices.hdawg Devices.uhfqa ++ [].
Proof.
  assert (H : connected Devices.hdawg Devices.uhfqa (after_connect quiet))
    by (constructor; vm_compute; reflexivity).
  split; [exact H|].
  exact (proj1 (setups_compose quiet Devices.hdawg Devices.uhfqa
                  [T1Setup; ResonatorSetup; T1Setup] (after_connect quiet) H)).
Defined.

(** X3: the Rabi experiment, from any connected kernel.  The configuration
    cell and the acquisition cell both complete.  The AWG core the
    acquisition runs and waits for is the core the configuration cell has
    configured and compiled ([drive] and [hdawg.awgs[0]] are one object);
    the readout is configured for 256 x 101 pulses, the number of
    repetitions of the drive sequence times the number of results the
    acquisition arms for; and [result] is bound to the vector read back by
    the last call. *)
Theorem rabi_experiment (lib : library) (hdawg uhfqa : handle) (s : state) :
  connected hdawg uhfqa s ->
  let setup := run_cell lib Notebook.rabi_setup s in
  let measure := run_cell lib Notebook.rabi_measure (final_state setup) in
  raised setup = None
  /\ raised measure = None
  /\ calls_since s setup = Expected.rabi_setup hdawg uhfqa
  /\ calls_since (final_state setup) measure
     = Call (HAttr uhfqa "result_mode") [VStr "Cyclic"] []
       :: Expected.acquisition hdawg uhfqa 101
  /\ ns (final_state measure) !! "result"
     = Some (VArray (acquired lib (length (trace s) + 13))).
Proof.
  intros Hs setup measure. subst setup measure.
  destruct (rabi_setup_runs lib hdawg uhfqa s Hs) as (s1 & Hrun1 & Htr1 & _ & Hc).
  destruct (rabi_measure_runs lib hdawg uhfqa _ s1 Hc) as (s2 & Hrun2 & Htr2 & Hres).
  rewrite Hrun1. cbn [final_state raised]. rewrite Hrun2. cbn [final_state raised].
  unfold calls_since. cbn [final_state].
  rewrite (proj2 rabi_amplitudes_value) in Htr2.
  split; [reflexivity|]. split; [reflexivity|]. split; [|split].
  - now rewrite Htr1, drop_app_length.
  - now rewrite Htr2, drop_app_length.
  - rewrite Hres, Htr1, length_app.
    cbn [length Expected.rabi_setup Expected.sequence_setup].
    now rewrite <- Nat.add_assoc.
Qed.

Lemma rabi_experiment_witness :
  connected Devices.hdawg Devices.uhfqa (after_connect quiet)
  /\ raised (run_cell quiet Notebook.rabi_measure
               (final_state (run_cell quiet Notebook.rabi_setup (after_connect quiet))))
     = None.
Proof.
  assert (H : connected Devices.hdawg Devices.uhfqa (after_connect quiet))
    by (constructor; vm_compute; reflexivity).
  split; [exact H|].
  exact (proj1 (proj2 (rabi_experiment quiet Devices.hdawg Devices.uhfqa
                         (after_connect quiet) H))).
Defined.

(** X4: the T1 experiment, from any connected kernel.  Both cells
    complete; the acquisition runs and waits for the core the
    configuration cell has configured and compiled; the readout is
    configured for 256 x 40 pulses and the acquisition arms for 40
    results; [result] is bound to the vector read back by the last
    call. *)
Theorem t1_experiment (lib : library) (hdawg uhfqa : handle) (s : state) :
  connected hdawg uhfqa s ->
  let setup := run_cell lib Notebook.t1_setup s in
  let measure := run_cell lib Notebook.t1_measure (final_state setup) in
  raised setup = None
  /\ raised measure = None
  /\ calls_since s setup = Expected.t1_setup hdawg uhfqa
  /\ calls_since (final_state setup) measure = Expected.acquisition hdawg uhfqa 40
  /\ ns (final_state measure) !! "result"
     = Some (VArray (acquired lib (length (trace s) + 12))).
Proof.
  intros Hs setup measure. subst setup measure.
  destruct (t1_setup_runs lib hdawg uhfqa s Hs) as (s1 & Hrun1 & Htr1 & _ & Hc).
  destruct (t1_measure_runs lib hdawg uhfqa _ s1 Hc) as (s2 & Hrun2 & Htr2 & Hres).
  rewrite Hrun1. cbn [final_state raised]. rewrite Hrun2. cbn [final_state raised].
  unfold calls_since. cbn [final_state].
  rewrite (proj2 delay_times_value) in Htr2.
  split; [reflexivity|]. split; [reflexivity|]. split; [|split].
  - now rewrite Htr1, drop_app_length.
  - now rewrite Htr2, drop_app_length.
  - rewrite Hres, Htr1, length_app.
    cbn [length Expected.t1_setup Expected.sequence_setup].
    now rewrite <- Nat.add_assoc.
Qed.

Lemma t1_experiment_witness :
  connected Devices.hdawg Devices.uhfqa (after_connect quiet)
  /\ calls_since
       (final_state (run_cell quiet Notebook.t1_setup (after_connect quiet)))
       (run_cell quiet Notebook.t1_measure
          (final_state (run_cell quiet Notebook.t1_setup (after_connect quiet))))
     = Expected.acquisition Devices.hdawg Devices.uhfqa 40.
Proof.
  assert (H : connected Devices.hdawg Devices.uhfqa (after_connect quiet))
    by (constructor; vm_compute; reflexivity).
  split; [exact H|].
  exact (proj1 (proj2 (proj2 (proj2
    (t1_experiment quiet Devices.hdawg Devices.uhfqa (after_connect quiet) H))))).
Defined.

Lemma iteration_count set_frequency uhfqa readout awg channel fs :
  length (flat_map (iteration set_frequency uhfqa readout awg channel) fs)
  = (6 * length fs)%nat.
Proof. induction fs as [|f fs IH]; [reflexivity|]. cbn [flat_map length app iteration]. lia. Qed.

(** X5: the whole qubit sweep cell, from any kernel in which the objects
    of the sweep are bound and [repetitions] holds some value.  The cell
    completes.  It selects result source 7, arms the readout for as many
    results as [repetitions] holds at that moment, enables the IQ
    modulation of the drive and then runs the 101 sweep points: 609 calls
    in all, and 101 averages in [results]. *)
Theorem qubit_sweep_cell (lib : library) (uhfqa readout drive channel : handle)
    (repetitions : value) (s : state) :
  qubit_ready uhfqa readout drive channel s ->
  ns s !! "repetitions" = Some repetitions ->
  let o := run_cell lib Notebook.qubit_sweep s in
  raised o = None
  /\ (exists fs,
        length fs = 101%nat
        /\ calls_since s o
           = Call (HAttr (HAttr (HAttr (HAttr uhfqa "nodetree") "qa") "result") "source")
               [VInt 7] []
             :: Call (HAttr uhfqa "arm") []
                  [("length", repetitions); ("averages", VInt 1)]
             :: Call (HAttr drive "enable_iq_modulation") [] []
             :: flat_map (iteration (HAttr drive "modulation_freq")
                            uhfqa readout drive channel) fs)
  /\ length (calls_since s o) = 609%nat
  /\ ns (final_state o) !! "results"
     = Some (VArray (averages lib (length (trace s) + 3) 101)).
Proof.
  intros Hready Hrep o. subst o.
  pose proof Hready as [Hnp Hu Hr Hd Hc]. destruct s as [m t p]. cbn [ns] in *.
  set (source := Call (HAttr (HAttr (HAttr (HAttr uhfqa "nodetree") "qa") "result")
                         "source") [VInt 7] []).
  set (arm := Call (HAttr uhfqa "arm") []
                [("length", repetitions); ("averages", VInt 1)]).
  assert (Hhead : forall k : unit -> M unit,
    (exec lib (SExpr (ECall (EAttr (EAttr (EAttr (EAttr (EName "uhfqa") "nodetree")
                                             "qa") "result") "source") [EInt 7] []));;;
     exec lib (SExpr (method_call (EName "uhfqa") "arm" []
                        [("length", EName "repetitions"); ("averages", EInt 1)]));;;
     k tt) (State m t p)
    = k tt (State m ((t ++ [source]) ++ [arm]) p)).
  { intros k. run_seq. reflexivity. }
  unfold run_cell.
  change (exec_block lib Notebook.qubit_sweep (State m t p))
    with ((exec lib (SExpr (ECall (EAttr (EAttr (EAttr (EAttr (EName "uhfqa") "nodetree")
                                                   "qa") "result") "source") [EInt 7] []));;;
           exec lib (SExpr (method_call (EName "uhfqa") "arm" []
                              [("length", EName "repetitions"); ("averages", EInt 1)]));;;
           (fun _ : unit => exec_block lib (drop 2 Notebook.qubit_sweep)) tt)
            (State m t p)).
  rewrite Hhead. cbv beta.
  destruct (qubit_results lib uhfqa readout drive channel
              (State m ((t ++ [source]) ++ [arm]) p))
    as (_ & Hnone & fs & Hlen & _ & Hcalls & Hresults).
  { constructor; assumption. }
  destruct (appends_run_cell lib (drop 2 Notebook.qubit_sweep)
              (State m ((t ++ [source]) ++ [arm]) p)) as [more Hmore].
  unfold run_cell in Hmore. unfold calls_since in *. cbn [trace] in *.
  rewrite Hmore, drop_app_length in Hcalls. subst more.
  split; [exact Hnone|]. split; [|split].
  - exists fs. split; [exact Hlen|].
    rewrite Hmore, <- !app_assoc, drop_app_length. reflexivity.
  - rewrite Hmore, <- !app_assoc, drop_app_length. cbn [app length].
    rewrite iteration_count, Hlen. reflexivity.
  - rewrite Hresults, !length_app. cbn [length]. now rewrite <- !Nat.add_assoc.
Qed.

Lemma qubit_sweep_cell_witness :
  qubit_ready Devices.uhfqa Devices.readout Devices.awg0 Devices.channel0
    (final_state (run_cell quiet Notebook.qubit_setup (after_connect quiet)))
  /\ ns (final_state (run_cell quiet Notebook.qubit_setup (after_connect quiet)))
       !! "repetitions" = Some (VInt 100)
  /\ length (calls_since
               (final_state (run_cell quiet Notebook.qubit_setup (after_connect quiet)))
               (run_cell quiet Notebook.qubit_sweep
                  (final_state (run_cell quiet Notebook.qubit_setup
                                  (after_connect quiet)))))
     = 609%nat.
Proof.
  assert (H : qubit_ready Devices.uhfqa Devices.readout Devices.awg0 Devices.channel0
                (final_state (run_cell quiet Notebook.qubit_setup (after_connect quiet))))
    by (constructor; vm_compute; reflexivity).
  assert (Hrep : ns (final_state (run_cell quiet Notebook.qubit_setup
                                    (after_connect quiet)))
                   !! "repetitions" = Some (VInt 100))
    by (vm_compute; reflexivity).
  split; [exact H|split; [exact Hrep|]].
  exact (proj1 (proj2 (proj2
    (qubit_sweep_cell quiet _ _ _ _ _ _ H Hrep)))).
Defined.

(** X6: an acquisition cell run without its configuration cell stops at
    the first name that cell would have bound.  In a kernel in which
    [uhfqa] is bound but [repetitions], [rabi_amplitudes] and
    [delay_times] are not: the qubit sweep cell raises [NameError] for
    [repetitions] after its first call (the arm call is not made); the Rabi
    acquisition raises for [rabi_amplitudes] after [result_mode("Cyclic")]
    (the arm call is not made); the T1 acquisition raises for
    [delay_times] without having made any call.  None of them binds a
    name. *)
Theorem acquisition_needs_setup (lib : library) (uhfqa : handle) (s : state) :
  ns s !! "uhfqa" = Some (VObj uhfqa) ->
  ns s !! "len" = None ->
  ns s !! "repetitions" = None ->
  ns s !! "rabi_amplitudes" = None ->
  ns s !! "delay_times" = None ->
  let qubit := run_cell lib Notebook.qubit_sweep s in
  let rabi := run_cell lib Notebook.rabi_measure s in
  let t1 := run_cell lib Notebook.t1_measure s in
  (raised qubit = Some (NameError "repetitions")
   /\ calls_since s qubit
      = [Call (HAttr (HAttr (HAttr (HAttr uhfqa "nodetree") "qa") "result") "source")
           [VInt 7] []]
   /\ ns (final_state qubit) = ns s)
  /\ (raised rabi = Some (NameError "rabi_amplitudes")
      /\ calls_since s rabi = [Call (HAttr uhfqa "result_mode") [VStr "Cyclic"] []]
      /\ ns (final_state rabi) = ns s)
  /\ t1 = Raise (NameError "delay_times") s.
Proof.
  intros Hu Hlen Hrep Hamp Hdel qubit rabi t1. subst qubit rabi t1.
  destruct s as [m t p]. cbn [ns] in *. unfold calls_since.
  split; [|split].
  - unfold Notebook.qubit_sweep. run_seq.
    split; [reflexivity|split; [|reflexivity]]. apply drop_app_length.
  - unfold Notebook.rabi_measure. run_seq.
    split; [reflexivity|split; [|reflexivity]]. apply drop_app_length.
  - unfold Notebook.t1_measure. run_seq. reflexivity.
Qed.

Lemma acquisition_needs_setup_witness :
  ns (after_connect quiet) !! "uhfqa" = Some (VObj Devices.uhfqa)
  /\ run_cell quiet Notebook.t1_measure (after_connect quiet)
     = Raise (NameError "delay_times") (after_connect quiet).
Proof.
  split; [vm_compute; reflexivity|].
  refine (proj2 (proj2 (acquisition_needs_setup quiet Devices.uhfqa
                          (after_connect quiet) _ _ _ _ _)));
    vm_compute; reflexivity.
Defined.

(** X7: the custom sequence cell uses a name, [awg], that no cell of the
    notebook binds.  In any kernel in which [awg] is not bound it raises
    [NameError] for [awg] and leaves the kernel as it was: no call is made,
    the path and the parameters are not even evaluated.  Running the whole
    notebook leaves [awg] unbound, whatever the instruments answer. *)
Theorem custom_cell_raises (lib : library) (s : state) :
  ns s !! "awg" = None ->
  run_cell lib Notebook.custom s = Raise (NameError "awg") s
  /\ ns (run_cells lib (removelast Notebook.cells) fresh) !! "awg" = None
  /\ last Notebook.cells = Some Notebook.custom.
Proof.
  intros Hawg. split; [|split; [vm_compute; reflexivity|reflexivity]].
  destruct s as [m t p]. cbn [ns] in *. unfold Notebook.custom. run_seq. reflexivity.
Qed.

Lemma custom_cell_raises_witness :
  ns (run_cells quiet (removelast Notebook.cells) fresh) !! "awg" = None
  /\ run_cell quiet Notebook.custom (run_cells quiet (removelast Notebook.cells) fresh)
     = Raise (NameError "awg") (run_cells quiet (removelast Notebook.cells) fresh).
Proof.
  assert (H : ns (run_cells quiet (removelast Notebook.cells) fresh) !! "awg" = None)
    by (vm_compute; reflexivity).
  split; [exact H|].
  exact (proj1 (custom_cell_raises quiet _ H)).
Defined.

(** X8: the notebook run from top to bottom in a fresh kernel, a cell that
    raises not keeping the next from being run: whatever the instruments
    answer, exactly two of the ten cells raise -- the resonator sweep
    ([ufhqa]) and the custom sequence ([awg]) --, the other eight complete,
    and 655 calls are made on the toolkit, 103 of them reading a result
    vector and 8 of them compiling a sequence. *)
Theorem notebook_top_to_bottom (lib : library) :
  cell_errors lib Notebook.cells fresh
  = [ None; None; Some (NameError "ufhqa"); None; None;
      None; None; None; None; Some (NameError "awg") ]
  /\ length (trace (run_cells lib Notebook.cells fresh)) = 655%nat
  /\ length (List.filter (fun c => String.eqb (method c) "result")
               (trace (run_cells lib Notebook.cells fresh))) = 103%nat
  /\ length (compilations (trace (run_cells lib Notebook.cells fresh))) = 8%nat.
Proof. repeat split; vm_compute; reflexivity. Qed.
